(** * The recursive validation engine of valty ([validateObject.ts])

    A shallow embedding of [src/validators/validateObject.ts].  The engine is
    dynamically typed: rule-sets, rules, objects under validation and the
    error trees it returns are all JavaScript values, so the model works on
    one type [jsvalue] and writes out [typeof], truthiness, [Array.isArray],
    [Object.keys] and property access the way the code uses them.

    Effects.  The code calls user-supplied functions (rule functions and
    dynamic rule builders) and throws on malformed rules.  Both are kept:
    a run yields the list of user-function calls it made, in order, and an
    outcome (a value, a thrown error, or the exhaustion of the recursion
    budget).

    Modelling boundary, stated once:
    - numbers are integers ([Z]); there is no NaN and no fraction;
    - user functions are pure and total: [call f v root] is the value
      [f(v, root)] returns;
    - property access sees own data properties, plus [length] of arrays and
      strings; members inherited from prototypes and the intrinsic
      properties of function objects are not modelled;
    - an object is the list of its own enumerable properties in enumeration
      order; arrays are dense. *)

From Stdlib Require Import List String Ascii ZArith Bool Arith Lia DecimalString Sorted.
Import ListNotations.
Open Scope string_scope.
Open Scope list_scope.

Set Warnings "-register-all".

(** ** Values *)

(** Function values are named: [VFun f] is the function [f], and the engine
    is parameterised by what the named functions return ([call] below). *)
Definition fname := nat.

Inductive jsvalue : Type :=
| VUndefined
| VNull
| VBool (b : bool)
| VNum (n : Z)
| VStr (s : string)
| VArr (elems : list jsvalue)
| VObj (props : list (string * jsvalue))
| VFun (f : fname).

(** [typeof v] *)
Definition typeof (v : jsvalue) : string :=
  match v with
  | VUndefined => "undefined"
  | VNull => "object"
  | VBool _ => "boolean"
  | VNum _ => "number"
  | VStr _ => "string"
  | VArr _ => "object"
  | VObj _ => "object"
  | VFun _ => "function"
  end.

(** ToBoolean: what [if (v)] and [!v] test. *)
Definition truthy (v : jsvalue) : bool :=
  match v with
  | VUndefined => false
  | VNull => false
  | VBool b => b
  | VNum n => negb (n =? 0)%Z
  | VStr s => negb (s =? "")
  | VArr _ => true
  | VObj _ => true
  | VFun _ => true
  end.

(** [Array.isArray(v)] *)
Definition isArray (v : jsvalue) : bool :=
  match v with VArr _ => true | _ => false end.

Definition isFunction (v : jsvalue) : bool :=
  match v with VFun _ => true | _ => false end.

(** The property key of an array index: its decimal numeral. *)
Definition index_key (i : nat) : string :=
  NilEmpty.string_of_uint (Nat.to_uint i).

Fixpoint chars (s : string) : list jsvalue :=
  match s with
  | EmptyString => []
  | String c s' => VStr (String c EmptyString) :: chars s'
  end.

Fixpoint indexed_from {A : Type} (i : nat) (xs : list A) : list (nat * A) :=
  match xs with
  | [] => []
  | x :: xs' => (i, x) :: indexed_from (S i) xs'
  end.

Definition indexed {A : Type} (xs : list A) : list (nat * A) := indexed_from 0 xs.

(** Own enumerable properties, in enumeration order. *)
Definition own_props (v : jsvalue) : list (string * jsvalue) :=
  match v with
  | VObj props => props
  | VArr elems => map (fun p => (index_key (fst p), snd p)) (indexed elems)
  | VStr s => map (fun p => (index_key (fst p), snd p)) (indexed (chars s))
  | _ => []
  end.

(** [Object.keys(v)]; also the keys a [for .. in] loop guarded by
    [hasOwnProperty] visits. *)
Definition own_keys (v : jsvalue) : list string := map fst (own_props v).

Fixpoint assoc (k : string) (props : list (string * jsvalue)) : option jsvalue :=
  match props with
  | [] => None
  | (k', v) :: rest => if k' =? k then Some v else assoc k rest
  end.

(** [v[k]] for a [v] that is neither undefined nor null. *)
Definition get_prop (v : jsvalue) (k : string) : jsvalue :=
  match assoc k (own_props v) with
  | Some x => x
  | None =>
      if k =? "length" then
        match v with
        | VArr elems => VNum (Z.of_nat (List.length elems))
        | VStr s => VNum (Z.of_nat (String.length s))
        | _ => VUndefined
        end
      else VUndefined
  end.

(** [v[i]] for a numeric index [i]. *)
Definition get_index (v : jsvalue) (i : nat) : jsvalue :=
  match v with
  | VArr elems => nth i elems VUndefined
  | VStr s => nth i (chars s) VUndefined
  | _ => get_prop v (index_key i)
  end.

(** [o[k] = x] on an object: overwrite in place, or add as the last key. *)
Fixpoint assoc_set (k : string) (x : jsvalue) (props : list (string * jsvalue))
  : list (string * jsvalue) :=
  match props with
  | [] => [(k, x)]
  | (k', v) :: rest =>
      if k' =? k then (k', x) :: rest else (k', v) :: assoc_set k x rest
  end.

Definition set_prop (o : jsvalue) (k : string) (x : jsvalue) : jsvalue :=
  match o with
  | VObj props => VObj (assoc_set k x props)
  | _ => o
  end.

(** [a.push(x)] *)
Definition push (a : jsvalue) (x : jsvalue) : jsvalue :=
  match a with
  | VArr elems => VArr (elems ++ [x])
  | _ => a
  end.

(** ** Runs: calls made, and outcome *)

Inductive error : Type :=
| Error (msg : string)        (* [throw Error(msg)] in the code *)
| TypeError (prop : string).  (* raised by reading [prop] of undefined or null *)

Inductive outcome (A : Type) : Type :=
| Ok (a : A)
| Throw (e : error)
| Unmodelled     (* the run leaves the modelled fragment of JavaScript *)
| OutOfFuel.

Arguments Ok {A} a.
Arguments Throw {A} e.
Arguments Unmodelled {A}.
Arguments OutOfFuel {A}.

(** One call [callee(arg, root)] of a user function. *)
Record event : Type := Call { callee : fname; arg : jsvalue; root_arg : jsvalue }.

Definition M (A : Type) : Type := (list event * outcome A)%type.

Definition ret {A : Type} (a : A) : M A := ([], Ok a).

Definition bind {A B : Type} (m : M A) (k : A -> M B) : M B :=
  match snd m with
  | Ok a => (fst m ++ fst (k a), snd (k a))
  | Throw e => (fst m, Throw e)
  | Unmodelled => (fst m, Unmodelled)
  | OutOfFuel => (fst m, OutOfFuel)
  end.

Definition throw {A : Type} (e : error) : M A := ([], Throw e).

Notation "x <- m ;; k" := (bind m (fun x => k))
  (at level 61, m at next level, right associativity).

Definition calls {A : Type} (m : M A) : list event := fst m.
Definition result {A : Type} (m : M A) : outcome A := snd m.

(** A loop with an accumulator: [for (x of xs) acc = body(acc, x)]. *)
Fixpoint foldM {A S : Type} (body : S -> A -> M S) (xs : list A) (s : S) : M S :=
  match xs with
  | [] => ret s
  | x :: xs' => s' <- body s x ;; foldM body xs' s'
  end.

(** [v[k]] / [v.k], which throws on undefined and null. *)
Definition prop_get (v : jsvalue) (k : string) : M jsvalue :=
  match v with
  | VUndefined | VNull => throw (TypeError k)
  | _ => ret (get_prop v k)
  end.

(** The number of rounds of [for (index = 0; index < v.length; index++)],
    for a [v] that is neither undefined nor null.  The comparison coerces
    [v.length] to a number; a length that is itself a string, array, object
    or function, and the arity of a function, are outside the model. *)
Definition length_bound (v : jsvalue) : M nat :=
  match v with
  | VArr elems => ret (List.length elems)
  | VStr s => ret (String.length s)
  | VObj props =>
      match assoc "length" props with
      | None | Some VUndefined | Some VNull => ret 0
      | Some (VBool b) => ret (if b then 1 else 0)
      | Some (VNum n) => ret (Z.to_nat n)
      | Some _ => ([], Unmodelled)
      end
  | VFun _ => ([], Unmodelled)
  | VBool _ | VNum _ => ret 0
  | VUndefined | VNull => throw (TypeError "length")
  end.

(** ** The engine *)

Module PrimitiveFieldValidationResult.
Record t : Type := { isValid : bool; errors : list jsvalue }.
End PrimitiveFieldValidationResult.

Module ObjectFieldValidationResult.
Record t : Type := { isValid : bool; errors : jsvalue }.
End ObjectFieldValidationResult.

Module PR := PrimitiveFieldValidationResult.
Module OR := ObjectFieldValidationResult.

(** [isArrayValidationRule]: every own key is [arrayRules] or
    [arrayElementRule].  For a rule that is neither undefined nor null, as
    [validateObject] calls it (on truthy rules only); on undefined and null
    [Object.keys] throws, which is not modelled here. *)
Definition isArrayValidationRule (rule : jsvalue) : bool :=
  let allowedKeys := ["arrayRules"; "arrayElementRule"] in
  let keys := own_keys rule in
  forallb (fun key => existsb (String.eqb key) allowedKeys) keys.

Section Engine.

(** [call f v root] is what the user function [f] returns on [(v, root)]. *)
Variable call : fname -> jsvalue -> jsvalue -> jsvalue.

Definition invoke (f : fname) (v root : jsvalue) : M jsvalue :=
  ([Call f v root], Ok (call f v root)).

(** The body of the loop of [validatePrimitiveField], for one slot. *)
Definition primitive_slot (key : string) (object root : jsvalue)
    (violations : list jsvalue) (validateFunc : jsvalue) : M (list jsvalue) :=
  if negb (truthy validateFunc) then ret violations
  else
    let isFunction := typeof validateFunc =? "function" in
    if negb isFunction then throw (Error "propertyRuleFunc is not a function")
    else
      match validateFunc with
      | VFun f =>
          value <- prop_get object key ;;
          violation <- invoke f value root ;;
          if truthy violation then ret (violations ++ [violation])
          else ret violations
      | _ => throw (Error "propertyRuleFunc is not a function")
      end.

Definition validatePrimitiveField (key : string) (object root rule : jsvalue)
  : M PR.t :=
  len <- length_bound rule ;;
  violations <-
    foldM (fun violations index =>
             primitive_slot key object root violations (get_index rule index))
          (seq 0 len) [] ;;
  ret {| PR.errors := violations;
         PR.isValid := Nat.eqb (List.length violations) 0 |}.

(** The whole-array part of [validateArrayField] (lines 72-79). *)
Definition array_rules_part (key : string) (object root : jsvalue)
    (arrayRules : jsvalue) (arrayFieldErrors : jsvalue) : M jsvalue :=
  if truthy arrayRules then
    len <- length_bound arrayRules ;;
    foldM (fun arrayFieldErrors (index : nat) =>
             primitiveFieldValidationResult <-
               validatePrimitiveField key object root arrayRules ;;
             if negb (PR.isValid primitiveFieldValidationResult)
             then ret (set_prop arrayFieldErrors "arrayErrors"
                         (VArr (PR.errors primitiveFieldValidationResult)))
             else ret arrayFieldErrors)
          (seq 0 len) arrayFieldErrors
  else ret arrayFieldErrors.

(** The error entry pushed for a failing element. *)
Definition element_entry (index : nat) (error element : jsvalue) : jsvalue :=
  VObj [("index", VNum (Z.of_nat index));
        ("errors", error);
        ("attemptedValue", element)].

Section WithWalker.

(** The tree walker the field validators recurse into:
    [rec object root rule] stands for [validateObject(object, root, rule)]. *)
Variable rec : jsvalue -> jsvalue -> jsvalue -> M jsvalue.

(** Validation of one element (lines 83-91). *)
Definition validate_element (root arrayElementRule element : jsvalue)
  : M jsvalue :=
  match arrayElementRule with
  | VFun g =>
      validationRule <- invoke g element root ;;
      rec element root validationRule
  | _ => rec element root arrayElementRule
  end.

(** The body of the element loop (lines 83-103). *)
Definition element_step (root arrayElementRule : jsvalue)
    (arrayFieldErrors : jsvalue) (ie : nat * jsvalue) : M jsvalue :=
  let index := fst ie in
  let element := snd ie in
  error <- validate_element root arrayElementRule element ;;
  if truthy error then
    let arrayFieldErrors :=
      if negb (truthy (get_prop arrayFieldErrors "arrayElementErrors"))
      then set_prop arrayFieldErrors "arrayElementErrors" (VArr [])
      else arrayFieldErrors in
    ret (set_prop arrayFieldErrors "arrayElementErrors"
           (push (get_prop arrayFieldErrors "arrayElementErrors")
                 (element_entry index error element)))
  else ret arrayFieldErrors.

(** The element-wise part of [validateArrayField] (lines 81-105). *)
Definition array_elements_part (root arrayElementRule value : jsvalue)
    (arrayFieldErrors : jsvalue) : M jsvalue :=
  if truthy arrayElementRule && isArray value then
    match value with
    | VArr elems =>
        foldM (element_step root arrayElementRule) (indexed elems)
              arrayFieldErrors
    | _ => ret arrayFieldErrors
    end
  else ret arrayFieldErrors.

(** [validateArrayField]; [fuel] bounds the chain of dynamic builders
    that return builders. *)
Fixpoint validateArrayField (fuel : nat) (key : string)
    (object root rule : jsvalue) {struct fuel} : M jsvalue :=
  value <- prop_get object key ;;
  match rule with
  | VFun f =>
      match fuel with
      | 0 => ([], OutOfFuel)
      | S fuel' =>
          arrayRule <- invoke f value root ;;
          validateArrayField fuel' key object root arrayRule
      end
  | _ =>
      let arrayFieldErrors := VObj [] in
      arrayRules <- prop_get rule "arrayRules" ;;
      arrayFieldErrors <-
        array_rules_part key object root arrayRules arrayFieldErrors ;;
      arrayElementRule <- prop_get rule "arrayElementRule" ;;
      array_elements_part root arrayElementRule value arrayFieldErrors
  end.

Definition validateObjectField (key : string) (object root rule : jsvalue)
  : M OR.t :=
  let violations : list jsvalue := [] in
  value <- prop_get object key ;;
  error <- rec value root rule ;;
  ret {| OR.errors := error;
         OR.isValid := Nat.eqb (List.length violations) 0
                        && negb (truthy error) |}.

(** [assignErrorsIfAny] on the local variable [errors]. *)
Definition assignErrorsIfAny (errors : jsvalue) (key : string)
    (violations : jsvalue) : jsvalue :=
  let errors := if negb (truthy errors) then VObj [] else errors in
  set_prop errors key violations.

(** The body of the [for .. in] loop of [validateObject] (lines 150-186).
    [fuel] is handed to [validateArrayField].  The results of
    [validateArrayField] and [validateObjectField] are objects, hence
    truthy: the tests [result?.] and [error &&] of the code always pass. *)
Definition field_step (fuel : nat) (object rootObject validationRule : jsvalue)
    (errors : jsvalue) (key : string) : M jsvalue :=
  rule <- prop_get validationRule key ;;
  value <- prop_get object key ;;
  if negb (truthy rule) then ret errors
  else
    let allowedRules := ["array"; "object"; "function"] in
    let typeOfRule := typeof rule in
    let isValidRuleType := existsb (String.eqb typeOfRule) allowedRules in
    if negb isValidRuleType
    then throw (Error (typeOfRule ++ " is not a valid rule."))
    else
      let isPrimitiveProperty := isArray rule in
      let isArrayProperty := isArrayValidationRule rule in
      let isObjectProperty := typeof value =? "object" in
      if isPrimitiveProperty then
        validationResult <-
          validatePrimitiveField key object rootObject rule ;;
        if negb (PR.isValid validationResult)
        then ret (assignErrorsIfAny errors key
                    (VArr (PR.errors validationResult)))
        else ret errors
      else if isArrayProperty then
        result <- validateArrayField fuel key object rootObject rule ;;
        if truthy (get_prop result "arrayErrors")
           || truthy (get_prop result "arrayElementErrors")
        then ret (assignErrorsIfAny errors key result)
        else ret errors
      else if isObjectProperty then
        error <- validateObjectField key object rootObject rule ;;
        if negb (OR.isValid error)
        then ret (assignErrorsIfAny errors key (OR.errors error))
        else ret errors
      else ret errors.

End WithWalker.

(** [validateObject].  Each level of recursion into a nested object or an
    array element spends one unit of [fuel]. *)
Fixpoint validateObject (fuel : nat) (object rootObject validationRule : jsvalue)
    {struct fuel} : M jsvalue :=
  match fuel with
  | 0 => ([], OutOfFuel)
  | S fuel' =>
      if negb (truthy validationRule)
      then throw (Error "validant: validation rule is null or undefined.")
      else
        let object := if negb (truthy object) then VObj [] else object in
        foldM (field_step (validateObject fuel') fuel'
                          object rootObject validationRule)
              (own_keys validationRule) VUndefined
  end.

End Engine.

(** ** Notions used to state the properties *)

Definition nullish (v : jsvalue) : bool :=
  match v with VUndefined | VNull => true | _ => false end.

(** A slot of a rule list the loop accepts: skipped (falsy) or a function. *)
Definition slot_ok (slot : jsvalue) : bool :=
  negb (truthy slot) || isFunction slot.

(** The functions of a rule list, in list order; the other slots dropped. *)
Fixpoint rule_functions (slots : list jsvalue) : list fname :=
  match slots with
  | [] => []
  | VFun f :: rest => f :: rule_functions rest
  | _ :: rest => rule_functions rest
  end.

Definition is_ok {A : Type} (m : M A) : bool :=
  match result m with Ok _ => true | _ => false end.

Definition string_mem (k : string) (ks : list string) : bool :=
  existsb (String.eqb k) ks.

(** What the whole-array part leaves in [arrayFieldErrors]. *)
Definition array_errors_object (violations : list jsvalue) : jsvalue :=
  match violations with
  | [] => VObj []
  | _ :: _ => VObj [("arrayErrors", VArr violations)]
  end.

(** The object the element loop holds once it has recorded [entries],
    starting from the properties [props]. *)
Definition elements_object (props : list (string * jsvalue))
    (entries : list jsvalue) : jsvalue :=
  match entries with
  | [] => VObj props
  | _ :: _ => VObj (props ++ [("arrayElementErrors", VArr entries)])
  end.

Section Notions.

Variable call : fname -> jsvalue -> jsvalue -> jsvalue.

(** The calls a rule list makes on [(v, root)], one per function. *)
Definition rule_calls (slots : list jsvalue) (v root : jsvalue) : list event :=
  map (fun f => Call f v root) (rule_functions slots).

(** The violations a rule list produces on [(v, root)]: the truthy
    results of its functions, in list order. *)
Definition rule_violations (slots : list jsvalue) (v root : jsvalue)
  : list jsvalue :=
  filter truthy (map (fun f => call f v root) (rule_functions slots)).

(** The object [validateObject] works on: [{}] in place of a falsy one. *)
Definition effective_object (object : jsvalue) : jsvalue :=
  if negb (truthy object) then VObj [] else object.

Section WithWalker.

Variable rec : jsvalue -> jsvalue -> jsvalue -> M jsvalue.

(** What one declared field reports: [Some e] when the field failed,
    with [e] the entry stored under its key, [None] when it passed.
    It follows the three dispatch branches of the loop body. *)
Definition field_errors (fuel : nat) (object rootObject validationRule : jsvalue)
    (key : string) : M (option jsvalue) :=
  rule <- prop_get validationRule key ;;
  value <- prop_get object key ;;
  if negb (truthy rule) then ret None
  else if negb (string_mem (typeof rule) ["array"; "object"; "function"])
  then throw (Error (typeof rule ++ " is not a valid rule."))
  else if isArray rule then
    r <- validatePrimitiveField call key object rootObject rule ;;
    ret (if PR.isValid r then None else Some (VArr (PR.errors r)))
  else if isArrayValidationRule rule then
    r <- validateArrayField call rec fuel key object rootObject rule ;;
    ret (if truthy (get_prop r "arrayErrors")
            || truthy (get_prop r "arrayElementErrors")
         then Some r else None)
  else if typeof value =? "object" then
    r <- validateObjectField rec key object rootObject rule ;;
    ret (if OR.isValid r then None else Some (OR.errors r))
  else ret None.

(** The error of an element, [undefined] when its validation did not
    return. *)
Definition element_error (root arrayElementRule element : jsvalue) : jsvalue :=
  match result (validate_element call rec root arrayElementRule element) with
  | Ok e => e
  | _ => VUndefined
  end.

(** The entries the element loop is to record: one per failing element,
    in the order of the array. *)
Definition failing_entries (root arrayElementRule : jsvalue)
    (elems : list jsvalue) : list jsvalue :=
  map (fun ie => element_entry (fst ie)
                   (element_error root arrayElementRule (snd ie)) (snd ie))
      (filter (fun ie => truthy (element_error root arrayElementRule (snd ie)))
              (indexed elems)).

End WithWalker.

(** Storing what a field reports into the error tree. *)
Definition store_verdict (errors : jsvalue) (key : string)
    (verdict : option jsvalue) : jsvalue :=
  match verdict with
  | Some e => assignErrorsIfAny errors key e
  | None => errors
  end.

End Notions.

(** What a run of [field_errors] reports; nothing when it did not return. *)
Definition verdict_of (m : M (option jsvalue)) : option jsvalue :=
  match result m with
  | Ok v => v
  | _ => None
  end.

(** The error tree assembled from the verdicts [verdict] of [keys], stored
    in loop order into [errors]. *)
Definition assemble_errors (verdict : string -> option jsvalue)
    (keys : list string) (errors : jsvalue) : jsvalue :=
  fold_left (fun errors key => store_verdict errors key (verdict key)) keys errors.

(** An error tree is absent, or an object with at least one key. *)
Definition tree_shape (errors : jsvalue) : Prop :=
  errors = VUndefined \/ exists p ps, errors = VObj (p :: ps).

(** A field rule that is a primitive rule list of accepted slots. *)
Definition primitive_rule (rule : jsvalue) : bool :=
  match rule with
  | VArr slots => forallb slot_ok slots
  | _ => false
  end.

(** The [index] recorded in an element entry. *)
Definition entry_index (entry : jsvalue) : Z :=
  match get_prop entry "index" with VNum n => n | _ => (-1)%Z end.

(** ** Notions for the further properties *)

(** Nesting depth of a value: 0 for a value without components. *)
Fixpoint depth (v : jsvalue) : nat :=
  match v with
  | VArr elems =>
      S ((fix elems_depth (l : list jsvalue) : nat :=
            match l with
            | [] => 0
            | x :: rest => Nat.max (depth x) (elems_depth rest)
            end) elems)
  | VObj props =>
      S ((fix props_depth (l : list (string * jsvalue)) : nat :=
            match l with
            | [] => 0
            | p :: rest => Nat.max (depth (snd p)) (props_depth rest)
            end) props)
  | _ => 0
  end.

(** A rule library in which every function returns itself: a builder that
    resolves to a builder, without end. *)
Definition self_call (f : fname) (v root : jsvalue) : jsvalue := VFun f.

(** What an array field validator may return: an object with, in this
    order, an optional [arrayErrors] and an optional [arrayElementErrors],
    each a non-empty array when present. *)
Definition array_errors_shape (r : jsvalue) : Prop :=
  exists rules_part elements_part,
    r = VObj (rules_part ++ elements_part)
    /\ (rules_part = []
        \/ exists v vs, rules_part = [("arrayErrors", VArr (v :: vs))])
    /\ (elements_part = []
        \/ exists e es, elements_part = [("arrayElementErrors", VArr (e :: es))]).

(** ** A concrete rule library, for the examples

    - [0] is a required-rule: a message on a falsy value;
    - [1] is a builder that resolves to the primitive rule list [[required]];
    - [2] is a builder that resolves to an array rule;
    - [3] is a whole-array rule: a message unless the value is a non-empty
      array;
    - [4] is a builder that resolves to the nested rule-set
      [{ name: [required] }]. *)
Definition required_message : jsvalue := VStr "This field is required.".

Definition ex_call (f : fname) (v root : jsvalue) : jsvalue :=
  match f with
  | 0 => if truthy v then VUndefined else required_message
  | 1 => VArr [VFun 0]
  | 2 => VObj [("arrayRules", VArr [VFun 3]);
               ("arrayElementRule", VObj [("name", VArr [VFun 0])])]
  | 3 => match v with
         | VArr (_ :: _) => VUndefined
         | _ => VStr "The array is empty."
         end
  | 4 => VObj [("name", VArr [VFun 0])]
  | _ => VUndefined
  end.

(** Rule-sets authored statically, with no dynamic builder: every field
    rule is skipped (falsy), a primitive rule list of accepted slots, an
    array rule whose [arrayRules] is absent or a list of accepted slots and
    whose [arrayElementRule] is absent or a static rule-set, or a nested
    static rule-set. *)
Inductive static_rule_set : jsvalue -> Prop :=
| static_fields props :
    (forall k r, In (k, r) props -> static_rule r) ->
    static_rule_set (VObj props)
with static_rule : jsvalue -> Prop :=
| static_skipped r :
    truthy r = false -> static_rule r
| static_primitive slots :
    forallb slot_ok slots = true -> static_rule (VArr slots)
| static_array props :
    isArrayValidationRule (VObj props) = true ->
    (truthy (get_prop (VObj props) "arrayRules") = false
     \/ exists slots, get_prop (VObj props) "arrayRules" = VArr slots
                      /\ forallb slot_ok slots = true) ->
    (truthy (get_prop (VObj props) "arrayElementRule") = false
     \/ static_rule_set (get_prop (VObj props) "arrayElementRule")) ->
    static_rule (VObj props)
| static_nested props :
    isArrayValidationRule (VObj props) = false ->
    static_rule_set (VObj props) ->
    static_rule (VObj props).

(** The loop bound of a value is one the model covers. *)
Definition length_modelled (v : jsvalue) : bool :=
  match result (length_bound v) with
  | Unmodelled => false
  | _ => true
  end.

(** A value in which every [arrayRules] property, at any depth, has a loop
    bound the model covers: an array, a string, a number, a boolean, or an
    object whose own [length] is absent, undefined, null, a boolean or a
    number. *)
Fixpoint modelled_rule (v : jsvalue) : bool :=
  match v with
  | VObj props =>
      match assoc "arrayRules" props with
      | Some x => length_modelled x
      | None => true
      end
      && (fix all_props (l : list (string * jsvalue)) : bool :=
            match l with
            | [] => true
            | p :: rest => modelled_rule (snd p) && all_props rest
            end) props
  | VArr elems =>
      (fix all_elems (l : list jsvalue) : bool :=
         match l with
         | [] => true
         | x :: rest => modelled_rule x && all_elems rest
         end) elems
  | _ => true
  end.

(** A second rule library, for arrays:
    - [0] is a required-rule;
    - [1] is a whole-array rule: a message when the array has two elements
      or more;
    - [2] is an element rule builder: for every element the rule-set
      [{ name: [required] }]. *)
Definition shop_call (f : fname) (v root : jsvalue) : jsvalue :=
  match f with
  | 0 => if truthy v then VUndefined else required_message
  | 1 => match v with
         | VArr (_ :: _ :: _) => VStr "Too many elements."
         | _ => VUndefined
         end
  | 2 => VObj [("name", VArr [VFun 0])]
  | _ => VUndefined
  end.

(** A rule library whose functions report nothing. *)
Definition quiet_call (f : fname) (v root : jsvalue) : jsvalue := VUndefined.

(** A rule library with a chain of builders:
    - [0] is a required-rule;
    - [1] is a builder that resolves to the builder [2];
    - [2] is a builder that resolves to the array rule
      [{ arrayRules: [nonEmpty] }];
    - [3] is the whole-array rule [nonEmpty]. *)
Definition chain_call (f : fname) (v root : jsvalue) : jsvalue :=
  match f with
  | 0 => if truthy v then VUndefined else required_message
  | 1 => VFun 2
  | 2 => VObj [("arrayRules", VArr [VFun 3])]
  | 3 => match v with
         | VArr (_ :: _) => VUndefined
         | _ => VStr "The array is empty."
         end
  | _ => VUndefined
  end.

(** * Properties *)

(** ** Runs *)

Lemma bind_ret_l {A B : Type} (a : A) (k : A -> M B) : bind (ret a) k = k a.
Proof. unfold bind, ret; simpl. now destruct (k a). Qed.

Lemma bind_ret_r {A : Type} (m : M A) : bind m ret = m.
Proof.
  destruct m as [t o]; destruct o; unfold bind; simpl;
    rewrite ?app_nil_r; reflexivity.
Qed.

Lemma bind_assoc {A B C : Type} (m : M A) (k : A -> M B) (h : B -> M C) :
  bind (bind m k) h = bind m (fun a => bind (k a) h).
Proof.
  destruct m as [t o]; destruct o as [a| | |]; unfold bind; simpl; try reflexivity.
  destruct (k a) as [t' o']; destruct o'; simpl; rewrite ?app_assoc; reflexivity.
Qed.

Lemma bind_ok {A B : Type} (t : list event) (a : A) (k : A -> M B) :
  bind (t, Ok a) k = (t ++ calls (k a), result (k a)).
Proof. reflexivity. Qed.

Lemma bind_throw {A B : Type} (e : error) (k : A -> M B) :
  bind (throw e) k = throw e.
Proof. reflexivity. Qed.

Lemma bind_ok_inv {A B : Type} (m : M A) (k : A -> M B) t b :
  bind m k = (t, Ok b) ->
  exists t1 a t2, m = (t1, Ok a) /\ k a = (t2, Ok b) /\ t = t1 ++ t2.
Proof.
  destruct m as [t1 o]; destruct o as [a| | |]; unfold bind; simpl;
    intros H; try discriminate.
  exists t1, a, (fst (k a)). destruct (k a) as [t2 o2]; simpl in *.
  inversion H; subst. auto.
Qed.

Lemma bind_ext {A B : Type} (m : M A) (k k' : A -> M B) :
  (forall a, k a = k' a) -> bind m k = bind m k'.
Proof.
  intros E. destruct m as [t o]; destruct o; unfold bind; simpl; try reflexivity.
  now rewrite E.
Qed.

Lemma foldM_app {A S : Type} (body : S -> A -> M S) xs ys s :
  foldM body (xs ++ ys) s = bind (foldM body xs s) (foldM body ys).
Proof.
  revert s; induction xs as [|x xs IH]; intros s; simpl.
  - now rewrite bind_ret_l.
  - rewrite bind_assoc. apply bind_ext. intros a. apply IH.
Qed.

Lemma foldM_ext {A S : Type} (body body' : S -> A -> M S) xs s :
  (forall s x, In x xs -> body s x = body' s x) ->
  foldM body xs s = foldM body' xs s.
Proof.
  revert s; induction xs as [|x xs IH]; intros s E; simpl; [reflexivity|].
  rewrite E by (now left). apply bind_ext. intros a. apply IH.
  intros; apply E; now right.
Qed.

(** A counting loop that reads [xs[index]] is a loop over [xs]. *)
Lemma foldM_seq_nth {A S : Type} (body : S -> A -> M S) (d : A) pre xs s :
  foldM (fun s index => body s (nth index (pre ++ xs) d))
        (seq (List.length pre) (List.length xs)) s
  = foldM body xs s.
Proof.
  revert pre s; induction xs as [|x xs IH]; intros pre s; simpl; [reflexivity|].
  rewrite app_nth2, Nat.sub_diag by lia. simpl.
  apply bind_ext. intros a.
  specialize (IH (pre ++ [x]) a).
  rewrite <- app_assoc, length_app in IH. simpl in IH.
  rewrite Nat.add_1_r in IH. exact IH.
Qed.

Lemma truthy_not_nullish v : truthy v = true -> nullish v = false.
Proof. destruct v; simpl; intros; congruence. Qed.

Lemma prop_get_def v k : nullish v = false -> prop_get v k = ret (get_prop v k).
Proof. destruct v; simpl; intros; congruence. Qed.

Section Properties.

Variable call : fname -> jsvalue -> jsvalue -> jsvalue.

(** ** The primitive field validator *)

(** On an array of slots, the counting loop of [validatePrimitiveField]
    visits the slots themselves. *)
Lemma validatePrimitiveField_slots key object root slots :
  validatePrimitiveField call key object root (VArr slots)
  = bind (foldM (primitive_slot call key object root) slots [])
         (fun violations =>
            ret {| PR.errors := violations;
                   PR.isValid := Nat.eqb (List.length violations) 0 |}).
Proof.
  unfold validatePrimitiveField. simpl length_bound. rewrite bind_ret_l.
  simpl get_index.
  now rewrite (foldM_seq_nth (primitive_slot call key object root) VUndefined [] slots).
Qed.

Lemma slot_ok_cases slot :
  slot_ok slot = true -> truthy slot = false \/ exists f, slot = VFun f.
Proof.
  unfold slot_ok. destruct (truthy slot); simpl; auto.
  destruct slot; simpl; try discriminate. eauto.
Qed.

Lemma rule_functions_falsy slot rest :
  truthy slot = false -> rule_functions (slot :: rest) = rule_functions rest.
Proof. destruct slot; simpl; intros; congruence. Qed.

(** The loop over accepted slots: every function is called, in order, and
    the truthy results are appended. *)
Lemma primitive_slots_ok key object root slots acc :
  nullish object = false ->
  forallb slot_ok slots = true ->
  foldM (primitive_slot call key object root) slots acc
  = (rule_calls slots (get_prop object key) root,
     Ok (acc ++ rule_violations call slots (get_prop object key) root)).
Proof.
  intros Hobj. revert acc.
  induction slots as [|slot rest IH]; intros acc Hall; simpl in Hall.
  - unfold rule_calls, rule_violations; simpl. now rewrite app_nil_r.
  - apply andb_prop in Hall as [Hs Hrest]. simpl foldM.
    destruct (slot_ok_cases _ Hs) as [Hf | [f ->]].
    + unfold primitive_slot at 1. rewrite Hf. simpl negb. cbv iota.
      rewrite bind_ret_l, IH by assumption.
      unfold rule_calls, rule_violations. now rewrite rule_functions_falsy.
    + unfold primitive_slot at 1. simpl. rewrite (prop_get_def _ key Hobj), bind_ret_l.
      unfold invoke. rewrite bind_assoc, bind_ok.
      unfold rule_calls, rule_violations in *.
      destruct (truthy (call f (get_prop object key) root)) eqn:Ht;
        rewrite bind_ret_l, IH by assumption; simpl; rewrite Ht;
        simpl; rewrite <- ?app_assoc; reflexivity.
Qed.


Lemma validatePrimitiveField_ok key object root slots :
  nullish object = false ->
  forallb slot_ok slots = true ->
  validatePrimitiveField call key object root (VArr slots)
  = (rule_calls slots (get_prop object key) root,
     Ok {| PR.isValid :=
             match rule_violations call slots (get_prop object key) root with
             | [] => true
             | _ :: _ => false
             end;
           PR.errors := rule_violations call slots (get_prop object key) root |}).
Proof.
  intros Hobj Hall.
  rewrite validatePrimitiveField_slots, (primitive_slots_ok key object root slots [] Hobj Hall).
  rewrite bind_ok. simpl. rewrite app_nil_r.
  now destruct (rule_violations call slots (get_prop object key) root).
Qed.

(** C6: on a rule list whose slots are functions (or skipped), the primitive
    field validator calls every function, in list order, on [(value, root)],
    whatever the earlier ones returned; [errors] is the list of all the
    violations they produced, in that order, and [isValid] holds exactly
    when that list is empty. *)
Theorem primitive_rules_accumulate key object root slots :
  nullish object = false ->
  forallb slot_ok slots = true ->
  let value := get_prop object key in
  let violations := filter truthy (map (fun f => call f value root)
                                       (rule_functions slots)) in
  calls (validatePrimitiveField call key object root (VArr slots))
    = map (fun f => Call f value root) (rule_functions slots)
  /\ result (validatePrimitiveField call key object root (VArr slots))
    = Ok {| PR.isValid := match violations with [] => true | _ => false end;
            PR.errors := violations |}.
Proof.
  intros Hobj Hall value violations.
  rewrite (validatePrimitiveField_ok key object root slots Hobj Hall). split; reflexivity.
Qed.

(** ** The whole-array rules *)

Lemma foldM_same {A S : Type} (body : S -> A -> M S) (t : list event)
    (g : S -> S) xs s :
  (forall s x, body s x = (t, Ok (g s))) ->
  foldM body xs s
  = (List.concat (repeat t (List.length xs)), Ok (Nat.iter (List.length xs) g s)).
Proof.
  intros Hbody. revert s; induction xs as [|x xs IH]; intros s; simpl.
  - reflexivity.
  - rewrite Hbody, bind_ok, IH. simpl. f_equal. f_equal.
    clear. induction (List.length xs); simpl; congruence.
Qed.

Lemma foldM_invariant {A S : Type} (P : S -> Prop) (body : S -> A -> M S) xs :
  (forall s x t s', body s x = (t, Ok s') -> P s -> P s') ->
  forall s t s', foldM body xs s = (t, Ok s') -> P s -> P s'.
Proof.
  intros Hbody. induction xs as [|x xs IH]; intros s t s' H Hs; simpl in H.
  - inversion H; subst; assumption.
  - apply bind_ok_inv in H as (t1 & a & t2 & H1 & H2 & _).
    eapply IH; [exact H2|]. eapply Hbody; eassumption.
Qed.

(** The whole-array part runs the complete rule list once per slot of the
    list: the calls of one pass, repeated. *)
Lemma array_rules_part_ok key object root slots :
  nullish object = false ->
  forallb slot_ok slots = true ->
  array_rules_part call key object root (VArr slots) (VObj [])
  = (List.concat (repeat (rule_calls slots (get_prop object key) root)
                    (List.length slots)),
     Ok (match slots with
         | [] => VObj []
         | _ :: _ => array_errors_object
                       (rule_violations call slots (get_prop object key) root)
         end)).
Proof.
  intros Hobj Hall. unfold array_rules_part. simpl truthy. cbv iota.
  simpl length_bound. rewrite bind_ret_l.
  set (vs := rule_violations call slots (get_prop object key) root).
  rewrite (foldM_same _ (rule_calls slots (get_prop object key) root)
             (fun afe => match vs with
                         | [] => afe
                         | _ :: _ => set_prop afe "arrayErrors" (VArr vs)
                         end)).
  - rewrite length_seq. f_equal. f_equal.
    destruct slots as [|s0 rest]; [reflexivity|].
    unfold array_errors_object. destruct vs as [|v0 vs']; simpl.
    + clear. induction (List.length rest); simpl; auto.
    + clear. induction (List.length rest); simpl; [reflexivity|].
      now rewrite IHn.
  - intros afe index.
    rewrite (validatePrimitiveField_ok key object root slots Hobj Hall), bind_ok. fold vs.
    cbn [PR.isValid PR.errors]. destruct vs; simpl; now rewrite app_nil_r.
Qed.

(** Whatever [arrayRules] is, the whole-array part only ever writes the
    [arrayErrors] key. *)
Lemma array_rules_part_shape key object root arrayRules t afe :
  array_rules_part call key object root arrayRules (VObj []) = (t, Ok afe) ->
  afe = VObj [] \/ exists v, afe = VObj [("arrayErrors", v)].
Proof.
  unfold array_rules_part. destruct (truthy arrayRules).
  - intros H. apply bind_ok_inv in H as (t1 & len & t2 & _ & H & _).
    refine (foldM_invariant
              (fun afe => afe = VObj [] \/ exists v, afe = VObj [("arrayErrors", v)])
              _ _ _ _ _ _ H _); [|now left].
    intros s x t' s' Hb Hs.
    apply bind_ok_inv in Hb as (t3 & r & t4 & _ & Hb & _).
    destruct (negb (PR.isValid r)); inversion Hb; subst; [|assumption].
    right. destruct Hs as [-> | [v ->]]; simpl; eauto.
  - intros H. inversion H. now left.
Qed.


(** ** The array field validator *)

Section ArrayField.

Variable rec : jsvalue -> jsvalue -> jsvalue -> M jsvalue.

(** On a rule that is not a function, [validateArrayField] is its two
    parts in sequence, and spends no fuel. *)
Lemma validateArrayField_static fuel key object root rule :
  nullish object = false ->
  nullish rule = false ->
  isFunction rule = false ->
  validateArrayField call rec fuel key object root rule
  = bind (array_rules_part call key object root (get_prop rule "arrayRules")
            (VObj []))
         (array_elements_part call rec root (get_prop rule "arrayElementRule")
            (get_prop object key)).
Proof.
  intros Hobj Hrule Hfun.
  destruct fuel; simpl; rewrite (prop_get_def object key Hobj), bind_ret_l;
    destruct rule; simpl in *; try discriminate;
    rewrite ?bind_ret_l; reflexivity.
Qed.

(** On a builder, [validateArrayField] calls it once on [(value, root)] and
    goes on with the rule it returns. *)
Lemma validateArrayField_builder fuel key object root f :
  nullish object = false ->
  validateArrayField call rec (S fuel) key object root (VFun f)
  = bind (invoke call f (get_prop object key) root)
         (validateArrayField call rec fuel key object root).
Proof.
  intros Hobj. simpl. now rewrite (prop_get_def object key Hobj), bind_ret_l.
Qed.

Lemma array_elements_part_skip root arrayElementRule value afe :
  isArray value = false ->
  array_elements_part call rec root arrayElementRule value afe = ret afe.
Proof.
  intros H. unfold array_elements_part. rewrite H, andb_false_r. reflexivity.
Qed.

Lemma assoc_set_miss k x props :
  assoc k props = None -> assoc_set k x props = props ++ [(k, x)].
Proof.
  induction props as [|[k' v] rest IH]; simpl; [reflexivity|].
  destruct (k' =? k); [discriminate|]. intros H. now rewrite IH.
Qed.

Lemma assoc_set_last k x y props :
  assoc k props = None ->
  assoc_set k x (props ++ [(k, y)]) = props ++ [(k, x)].
Proof.
  induction props as [|[k' v] rest IH]; simpl.
  - now rewrite String.eqb_refl.
  - destruct (k' =? k); [discriminate|]. intros H. now rewrite IH.
Qed.

Lemma assoc_app_miss k props rest :
  assoc k props = None -> assoc k (props ++ rest) = assoc k rest.
Proof.
  induction props as [|[k' v] tl IH]; simpl; [reflexivity|].
  destruct (k' =? k); [discriminate|]. exact IH.
Qed.

(** The object the element loop holds after recording [entries]. *)
Lemma element_step_ok root er props entries ie e :
  assoc "arrayElementErrors" props = None ->
  result (validate_element call rec root er (snd ie)) = Ok e ->
  element_step call rec root er (elements_object props entries) ie
  = (calls (validate_element call rec root er (snd ie)),
     Ok (elements_object props
           (entries ++ if truthy e then [element_entry (fst ie) e (snd ie)]
                       else []))).
Proof.
  intros Hprops He. unfold element_step.
  destruct (validate_element call rec root er (snd ie)) as [t o] eqn:Hv.
  simpl in He; subst o. rewrite bind_ok. simpl calls.
  destruct (truthy e); simpl.
  - rewrite app_nil_r. f_equal. f_equal.
    unfold elements_object. destruct entries as [|e0 es]; simpl.
    + unfold get_prop; simpl. rewrite Hprops. simpl.
      rewrite (assoc_set_miss _ _ _ Hprops). simpl.
      unfold get_prop; simpl. rewrite (assoc_app_miss _ _ _ Hprops). simpl.
      now rewrite assoc_set_last.
    + unfold get_prop; simpl. rewrite (assoc_app_miss _ _ _ Hprops). simpl.
      rewrite ?(assoc_app_miss _ _ _ Hprops). simpl.
      now rewrite assoc_set_last.
  - now rewrite !app_nil_r.
Qed.

Lemma element_loop root er props :
  assoc "arrayElementErrors" props = None ->
  forall elems i entries,
  forallb (fun e => is_ok (validate_element call rec root er e)) elems = true ->
  foldM (element_step call rec root er) (indexed_from i elems)
        (elements_object props entries)
  = (List.concat (map (fun e => calls (validate_element call rec root er e)) elems),
     Ok (elements_object props
           (entries ++
            map (fun ie => element_entry (fst ie)
                             (element_error call rec root er (snd ie)) (snd ie))
                (filter (fun ie => truthy (element_error call rec root er (snd ie)))
                        (indexed_from i elems))))).
Proof.
  intros Hprops. induction elems as [|x xs IH]; intros i entries Hall; simpl.
  - now rewrite app_nil_r.
  - simpl in Hall. apply andb_prop in Hall as [Hx Hxs].
    unfold is_ok in Hx.
    destruct (result (validate_element call rec root er x)) as [e| | |] eqn:He;
      try discriminate.
    rewrite (element_step_ok root er props entries (i, x) e Hprops He).
    rewrite bind_ok, (IH _ _ Hxs). simpl.
    assert (Hee : element_error call rec root er x = e)
      by (unfold element_error; now rewrite He).
    rewrite Hee. rewrite <- app_assoc.
    destruct (truthy e) eqn:Ht; simpl; rewrite ?Hee; reflexivity.
Qed.

Lemma entry_index_entry i err e :
  entry_index (element_entry i err e) = Z.of_nat i.
Proof. reflexivity. Qed.

Lemma indexed_from_In {A : Type} (xs : list A) i k x :
  In (k, x) (indexed_from i xs) <-> i <= k /\ nth_error xs (k - i) = Some x.
Proof.
  revert i; induction xs as [|y ys IH]; intros i; simpl.
  - split; [tauto|]. intros [_ H]. destruct (k - i); discriminate.
  - rewrite IH. split.
    + intros [H | [Hle Hn]].
      * inversion H; subst. rewrite Nat.sub_diag. auto.
      * split; [lia|]. replace (k - i) with (S (k - S i)) by lia. exact Hn.
    + intros [Hle Hn]. destruct (Nat.eq_dec i k) as [->|Hne].
      * rewrite Nat.sub_diag in Hn. simpl in Hn. left. congruence.
      * right. split; [lia|].
        replace (k - i) with (S (k - S i)) in Hn by lia. exact Hn.
Qed.

Lemma filtered_indices_sorted {A : Type} (f : nat * A -> bool) (xs : list A) i :
  StronglySorted Z.lt (map (fun ie => Z.of_nat (fst ie)) (filter f (indexed_from i xs)))
  /\ Forall (fun z => (Z.of_nat i <= z)%Z)
            (map (fun ie => Z.of_nat (fst ie)) (filter f (indexed_from i xs))).
Proof.
  revert i; induction xs as [|x xs IH]; intros i; simpl.
  - split; constructor.
  - destruct (IH (S i)) as [Hs Hb].
    assert (Hb' : Forall (fun z => (Z.of_nat i < z)%Z)
              (map (fun ie => Z.of_nat (fst ie)) (filter f (indexed_from (S i) xs)))).
    { eapply Forall_impl; [|exact Hb]. simpl. intros; lia. }
    destruct (f (i, x)); simpl.
    + split; constructor; try assumption; try lia.
      eapply Forall_impl; [|exact Hb']. simpl; intros; lia.
    + split; [assumption|]. eapply Forall_impl; [|exact Hb']. simpl; intros; lia.
Qed.


Lemma failing_entries_indices root er elems :
  map entry_index (failing_entries call rec root er elems)
  = map (fun ie => Z.of_nat (fst ie))
        (filter (fun ie => truthy (element_error call rec root er (snd ie)))
                (indexed elems)).
Proof. unfold failing_entries. rewrite map_map. reflexivity. Qed.

Lemma failing_entries_In root er elems entry :
  In entry (failing_entries call rec root er elems) <->
  exists i e, nth_error elems i = Some e
              /\ truthy (element_error call rec root er e) = true
              /\ entry = element_entry i (element_error call rec root er e) e.
Proof.
  unfold failing_entries, indexed. rewrite in_map_iff. split.
  - intros [[i e] [Hentry Hin]]. apply filter_In in Hin as [Hin Ht].
    apply indexed_from_In in Hin as [_ Hn]. rewrite Nat.sub_0_r in Hn.
    exists i, e. simpl in *. auto.
  - intros (i & e & Hn & Ht & ->). exists (i, e). split; [reflexivity|].
    apply filter_In. split; [|exact Ht].
    apply indexed_from_In. rewrite Nat.sub_0_r. split; [lia|exact Hn].
Qed.

Lemma element_error_ok root er e err :
  result (validate_element call rec root er e) = Ok err ->
  element_error call rec root er e = err.
Proof. intros H. unfold element_error. now rewrite H. Qed.

Lemma element_returns root er elems e :
  forallb (fun e => is_ok (validate_element call rec root er e)) elems = true ->
  In e elems ->
  exists err, result (validate_element call rec root er e) = Ok err.
Proof.
  intros Hall Hin. rewrite forallb_forall in Hall. specialize (Hall e Hin).
  unfold is_ok in Hall.
  destruct (result (validate_element call rec root er e)); try discriminate. eauto.
Qed.

(** C5: on an array value, with an element rule, [arrayElementErrors] is
    absent when no element fails and otherwise the list of the entries
    [{ index: i, errors: err, attemptedValue: e }], one for each position
    [i] whose element [e] has a truthy error tree [err] and none for a
    passing element; the indices are strictly ascending. *)
Theorem element_errors_listed fuel key object root rule elems t1 afe1 :
  nullish object = false ->
  nullish rule = false ->
  isFunction rule = false ->
  get_prop object key = VArr elems ->
  truthy (get_prop rule "arrayElementRule") = true ->
  array_rules_part call key object root (get_prop rule "arrayRules") (VObj [])
    = (t1, Ok afe1) ->
  forallb (fun e => is_ok (validate_element call rec root
                             (get_prop rule "arrayElementRule") e)) elems = true ->
  let er := get_prop rule "arrayElementRule" in
  exists res entries,
    result (validateArrayField call rec fuel key object root rule) = Ok res
    /\ get_prop res "arrayElementErrors"
       = match entries with [] => VUndefined | _ :: _ => VArr entries end
    /\ StronglySorted Z.lt (map entry_index entries)
    /\ (forall entry,
          In entry entries <->
          exists i e err,
            nth_error elems i = Some e
            /\ result (validate_element call rec root er e) = Ok err
            /\ truthy err = true
            /\ entry = VObj [("index", VNum (Z.of_nat i));
                             ("errors", err);
                             ("attemptedValue", e)]).
Proof.
  intros Hobj Hrule Hfun Hval Her Hrules Hall er.
  set (entries := failing_entries call rec root er elems).
  assert (Hrun : exists res,
             result (validateArrayField call rec fuel key object root rule) = Ok res
             /\ get_prop res "arrayElementErrors"
                = match entries with [] => VUndefined | _ :: _ => VArr entries end).
  { rewrite (validateArrayField_static fuel key object root rule Hobj Hrule Hfun).
    rewrite Hrules, bind_ok, Hval. unfold array_elements_part.
    rewrite Her. fold er. simpl andb. cbv iota.
    assert (Hshape : exists props, afe1 = elements_object props []
                                   /\ assoc "arrayElementErrors" props = None).
    { destruct (array_rules_part_shape _ _ _ _ _ _ Hrules) as [-> | [v ->]].
      - exists []. split; reflexivity.
      - exists [("arrayErrors", v)]. split; reflexivity. }
    destruct Hshape as (props & -> & Hprops).
    unfold indexed. rewrite (element_loop root er props Hprops elems 0 [] Hall).
    simpl result. fold (indexed elems).
    fold (failing_entries call rec root er elems). fold entries.
    eexists. split; [reflexivity|].
    unfold elements_object. simpl app.
    destruct entries; unfold get_prop; simpl.
    + now rewrite Hprops.
    + rewrite (assoc_app_miss _ _ _ Hprops). simpl. reflexivity. }
  destruct Hrun as (res & Hres & Hget).
  exists res, entries. split; [exact Hres|]. split; [exact Hget|]. split.
  - unfold entries. rewrite failing_entries_indices.
    apply (filtered_indices_sorted _ elems 0).
  - intros entry. unfold entries. rewrite failing_entries_In. split.
    + intros (i & e & Hnth & Ht & ->).
      destruct (element_returns root er elems e Hall (nth_error_In _ _ Hnth))
        as [err Herr].
      rewrite (element_error_ok root er e err Herr) in *.
      exists i, e, err. repeat split; assumption.
    + intros (i & e & err & Hnth & Herr & Ht & ->).
      exists i, e. rewrite (element_error_ok root er e err Herr).
      repeat split; assumption.
Qed.

(** C8: when the value of an array-rule field is not an array, the run of
    the array field validator is exactly the run of its whole-array part:
    the element loop is not entered, [arrayElementErrors] stays absent, and
    the whole-array rules are applied to the value that is there. *)
Theorem non_array_value_skips_elements fuel key object root rule :
  nullish object = false ->
  nullish rule = false ->
  isFunction rule = false ->
  isArray (get_prop object key) = false ->
  validateArrayField call rec fuel key object root rule
    = array_rules_part call key object root (get_prop rule "arrayRules") (VObj [])
  /\ (forall res,
        result (validateArrayField call rec fuel key object root rule) = Ok res ->
        get_prop res "arrayElementErrors" = VUndefined)
  /\ (forall slots,
        get_prop rule "arrayRules" = VArr slots ->
        forallb slot_ok slots = true ->
        calls (validateArrayField call rec fuel key object root rule)
          = List.concat (repeat (rule_calls slots (get_prop object key) root)
                                (List.length slots))
        /\ result (validateArrayField call rec fuel key object root rule)
          = Ok (match slots with
                | [] => VObj []
                | _ :: _ => array_errors_object
                              (rule_violations call slots (get_prop object key) root)
                end)).
Proof.
  intros Hobj Hrule Hfun Hval.
  assert (E : validateArrayField call rec fuel key object root rule
              = array_rules_part call key object root
                  (get_prop rule "arrayRules") (VObj [])).
  { rewrite (validateArrayField_static fuel key object root rule Hobj Hrule Hfun).
    rewrite <- (bind_ret_r (array_rules_part _ _ _ _ _ _)) at 2.
    apply bind_ext. intros afe. now apply array_elements_part_skip. }
  split; [exact E|]. rewrite E. split.
  - intros res Hres.
    destruct (array_rules_part call key object root
                (get_prop rule "arrayRules") (VObj [])) as [t o] eqn:Hp.
    simpl in Hres; subst o.
    destruct (array_rules_part_shape _ _ _ _ _ _ Hp) as [-> | [v ->]]; reflexivity.
  - intros slots Hslots Hall. rewrite Hslots.
    rewrite (array_rules_part_ok key object root slots Hobj Hall).
    split; reflexivity.
Qed.

End ArrayField.

(** ** The tree walker *)

Section Walker.

Variable rec : jsvalue -> jsvalue -> jsvalue -> M jsvalue.

(** The loop body stores what [field_errors] reports. *)
Lemma field_step_factor fuel object root R errors key :
  field_step call rec fuel object root R errors key
  = bind (field_errors call rec fuel object root R key)
         (fun v => ret (store_verdict errors key v)).
Proof.
  unfold field_step, field_errors.
  rewrite bind_assoc. apply bind_ext. intros rule.
  rewrite bind_assoc. apply bind_ext. intros value.
  destruct (negb (truthy rule)); [now rewrite bind_ret_l|].
  unfold string_mem.
  destruct (negb (existsb (String.eqb (typeof rule)) ["array"; "object"; "function"]));
    [reflexivity|].
  destruct (isArray rule).
  { rewrite bind_assoc. apply bind_ext. intros r. rewrite bind_ret_l.
    now destruct (PR.isValid r). }
  destruct (isArrayValidationRule rule).
  { rewrite bind_assoc. apply bind_ext. intros r. rewrite bind_ret_l.
    now destruct (truthy (get_prop r "arrayErrors")
                  || truthy (get_prop r "arrayElementErrors")). }
  destruct (typeof value =? "object").
  { rewrite bind_assoc. apply bind_ext. intros r. rewrite bind_ret_l.
    now destruct (OR.isValid r). }
  now rewrite bind_ret_l.
Qed.

Lemma is_ok_result {A : Type} (m : M A) :
  is_ok m = true -> exists a, m = (calls m, Ok a).
Proof.
  unfold is_ok. destruct m as [t o]; destruct o; simpl; try discriminate. eauto.
Qed.

(** When every field's validator returns, the loop returns the tree
    assembled from their verdicts, having made their calls in order. *)
Lemma foldM_field_steps fuel object root R keys errs :
  forallb (fun k => is_ok (field_errors call rec fuel object root R k)) keys = true ->
  foldM (field_step call rec fuel object root R) keys errs
  = (List.concat (map (fun k => calls (field_errors call rec fuel object root R k)) keys),
     Ok (assemble_errors
           (fun k => verdict_of (field_errors call rec fuel object root R k))
           keys errs)).
Proof.
  revert errs. induction keys as [|k ks IH]; intros errs Hall; simpl.
  - reflexivity.
  - simpl in Hall. apply andb_prop in Hall as [Hk Hks].
    rewrite field_step_factor.
    destruct (is_ok_result _ Hk) as [v Hv].
    rewrite bind_assoc, Hv, bind_ok, bind_ret_l, (IH _ Hks). simpl.
    unfold verdict_of at 2. rewrite Hv. reflexivity.
Qed.

(** Conversely the loop returns only if every field's validator did. *)
Lemma foldM_field_steps_inv fuel object root R keys errs t tree :
  foldM (field_step call rec fuel object root R) keys errs = (t, Ok tree) ->
  forallb (fun k => is_ok (field_errors call rec fuel object root R k)) keys = true.
Proof.
  revert errs t. induction keys as [|k ks IH]; intros errs t H; simpl in *.
  - reflexivity.
  - apply bind_ok_inv in H as (t1 & a & t2 & H1 & H2 & _).
    rewrite field_step_factor in H1.
    apply bind_ok_inv in H1 as (t3 & v & t4 & H3 & _ & _).
    unfold is_ok at 1. rewrite H3. simpl. eapply IH; eassumption.
Qed.

End Walker.

(** *** The assembled tree *)

Lemma get_prop_undefined k : get_prop VUndefined k = VUndefined.
Proof. unfold get_prop; simpl. now destruct (k =? "length"). Qed.

Lemma get_prop_obj props k :
  get_prop (VObj props) k
  = match assoc k props with Some x => x | None => VUndefined end.
Proof. unfold get_prop; simpl. destruct (assoc k props); [reflexivity|].
  now destruct (k =? "length"). Qed.

Lemma assoc_assoc_set k k' x props :
  assoc k' (assoc_set k x props)
  = if k =? k' then Some x else assoc k' props.
Proof.
  induction props as [|[k0 v0] rest IH]; simpl.
  - reflexivity.
  - destruct (k0 =? k) eqn:E0; simpl.
    + apply String.eqb_eq in E0; subst k0. now destruct (k =? k').
    + destruct (k0 =? k') eqn:E1; [|exact IH].
      apply String.eqb_eq in E1; subst k0. now rewrite String.eqb_sym, E0.
Qed.

Lemma keys_assoc_set k k' x props :
  In k' (map fst (assoc_set k x props)) <-> In k' (map fst props) \/ k' = k.
Proof.
  induction props as [|[k0 v0] rest IH]; simpl.
  - intuition congruence.
  - destruct (k0 =? k) eqn:E0; simpl.
    + apply String.eqb_eq in E0; subst k0. intuition congruence.
    + rewrite IH. tauto.
Qed.

Lemma tree_shape_store errors key verdict :
  tree_shape errors -> tree_shape (store_verdict errors key verdict).
Proof.
  intros Hs. destruct verdict as [e|]; [|exact Hs]. right.
  destruct Hs as [-> | ([k0 v0] & ps & ->)];
    unfold store_verdict, assignErrorsIfAny; simpl.
  - eauto.
  - destruct (k0 =? key); eauto.
Qed.

Lemma get_prop_store errors key verdict k :
  tree_shape errors ->
  get_prop (store_verdict errors key verdict) k
  = match verdict with
    | Some e => if key =? k then e else get_prop errors k
    | None => get_prop errors k
    end.
Proof.
  intros Hs. destruct verdict as [e|]; [|reflexivity].
  destruct Hs as [-> | (p & ps & ->)]; unfold store_verdict, assignErrorsIfAny;
    simpl negb; cbv iota; unfold set_prop;
    rewrite !get_prop_obj, ?get_prop_undefined, assoc_assoc_set;
    now destruct (key =? k).
Qed.

Lemma keys_store errors key verdict k :
  tree_shape errors ->
  In k (own_keys (store_verdict errors key verdict))
  <-> In k (own_keys errors) \/ (k = key /\ verdict <> None).
Proof.
  intros Hs. destruct verdict as [e|]; simpl.
  - destruct Hs as [-> | (p & ps & ->)]; unfold assignErrorsIfAny;
      simpl negb; cbv iota; unfold set_prop, own_keys, own_props;
      rewrite keys_assoc_set; simpl; intuition congruence.
  - intuition congruence.
Qed.

Lemma tree_shape_assemble verdict keys errors :
  tree_shape errors -> tree_shape (assemble_errors verdict keys errors).
Proof.
  revert errors. induction keys as [|k ks IH]; intros errors Hs; simpl.
  - exact Hs.
  - apply IH. now apply tree_shape_store.
Qed.

(** A key of the assembled tree was there before, or is a visited key whose
    field failed. *)
Lemma keys_assemble verdict keys errors k :
  tree_shape errors ->
  In k (own_keys (assemble_errors verdict keys errors))
  <-> In k (own_keys errors) \/ (In k keys /\ verdict k <> None).
Proof.
  revert errors. induction keys as [|k0 ks IH]; intros errors Hs; simpl.
  - tauto.
  - rewrite (IH _ (tree_shape_store errors k0 (verdict k0) Hs)).
    rewrite (keys_store errors k0 (verdict k0) k Hs).
    split.
    + intros [[H | [-> H]] | [H1 H2]]; auto.
    + intros [H | [[-> | H1] H2]]; auto.
Qed.

Lemma assemble_errors_snoc verdict keys key errors :
  assemble_errors verdict (keys ++ [key]) errors
  = store_verdict (assemble_errors verdict keys errors) key (verdict key).
Proof. unfold assemble_errors. now rewrite fold_left_app. Qed.

(** Under a visited key the assembled tree holds what that field reports. *)
Lemma get_prop_assemble verdict keys errors k :
  tree_shape errors ->
  get_prop (assemble_errors verdict keys errors) k
  = match (if string_mem k keys then verdict k else None) with
    | Some e => e
    | None => get_prop errors k
    end.
Proof.
  intros Hs. induction keys as [|k0 ks IH] using rev_ind.
  - reflexivity.
  - rewrite assemble_errors_snoc.
    rewrite (get_prop_store _ k0 (verdict k0) k (tree_shape_assemble verdict ks errors Hs)).
    rewrite IH. unfold string_mem. rewrite existsb_app. simpl. rewrite orb_false_r.
    rewrite (String.eqb_sym k k0).
    destruct (k0 =? k) eqn:E.
    + apply String.eqb_eq in E; subst k0. rewrite orb_true_r.
      destruct (verdict k); [reflexivity|].
      now destruct (existsb (String.eqb k) ks).
    + rewrite orb_false_r. now destruct (verdict k0).
Qed.

Lemma string_mem_In k ks : string_mem k ks = true <-> In k ks.
Proof.
  unfold string_mem. rewrite existsb_exists. split.
  - intros (x & Hin & E). apply String.eqb_eq in E. now subst.
  - intros Hin. exists k. split; [exact Hin|apply String.eqb_refl].
Qed.

Lemma assemble_errors_none verdict keys errors :
  (forall k, In k keys -> verdict k = None) ->
  assemble_errors verdict keys errors = errors.
Proof.
  revert errors. induction keys as [|k ks IH]; intros errors H; simpl.
  - reflexivity.
  - rewrite (H k) by (now left). simpl. apply IH. intros; apply H; now right.
Qed.

(** *** [validateObject] *)

Lemma validateObject_unfold fuel O root R :
  truthy R = true ->
  validateObject call (S fuel) O root R
  = foldM (field_step call (validateObject call fuel) fuel
             (effective_object O) root R)
          (own_keys R) VUndefined.
Proof. intros H. simpl. rewrite H. reflexivity. Qed.

Lemma validateObject_no_rules fuel O root R :
  truthy R = false ->
  validateObject call (S fuel) O root R
  = ([], Throw (Error "validant: validation rule is null or undefined.")).
Proof. intros H. simpl. rewrite H. reflexivity. Qed.

(** A falsy object is validated as [{}]. *)
Lemma validateObject_falsy_object fuel O root R :
  truthy O = false ->
  validateObject call fuel O root R = validateObject call fuel (VObj []) root R.
Proof. intros H. destruct fuel; simpl; [reflexivity|]. now rewrite H. Qed.

Lemma effective_object_not_nullish O : nullish (effective_object O) = false.
Proof.
  unfold effective_object. destruct (truthy O) eqn:E; simpl; [|reflexivity].
  now apply truthy_not_nullish.
Qed.

(** When every declared field's validator returns, so does [validateObject],
    with the tree assembled from what the fields report. *)
Lemma validateObject_ok fuel O root R :
  truthy R = true ->
  forallb (fun k => is_ok (field_errors call (validateObject call fuel) fuel
                             (effective_object O) root R k))
          (own_keys R) = true ->
  validateObject call (S fuel) O root R
  = (List.concat
       (map (fun k => calls (field_errors call (validateObject call fuel) fuel
                               (effective_object O) root R k))
            (own_keys R)),
     Ok (assemble_errors
           (fun k => verdict_of (field_errors call (validateObject call fuel) fuel
                                   (effective_object O) root R k))
           (own_keys R) VUndefined)).
Proof.
  intros HR Hall. rewrite (validateObject_unfold fuel O root R HR).
  now apply foldM_field_steps.
Qed.

Lemma validateObject_ok_inv fuel O root R t tree :
  validateObject call (S fuel) O root R = (t, Ok tree) ->
  truthy R = true
  /\ forallb (fun k => is_ok (field_errors call (validateObject call fuel) fuel
                                (effective_object O) root R k))
             (own_keys R) = true.
Proof.
  intros H. destruct (truthy R) eqn:HR.
  - split; [reflexivity|].
    rewrite (validateObject_unfold fuel O root R HR) in H.
    eapply foldM_field_steps_inv; eassumption.
  - rewrite (validateObject_no_rules fuel O root R HR) in H. discriminate.
Qed.

(** What a primitive rule list reports for its field. *)
Lemma field_errors_primitive rec fuel object root R key slots :
  nullish R = false ->
  nullish object = false ->
  get_prop R key = VArr slots ->
  forallb slot_ok slots = true ->
  field_errors call rec fuel object root R key
  = (rule_calls slots (get_prop object key) root,
     Ok (match rule_violations call slots (get_prop object key) root with
         | [] => None
         | v :: vs => Some (VArr (v :: vs))
         end)).
Proof.
  intros HR Hobj Hrule Hall. unfold field_errors.
  rewrite (prop_get_def R key HR), bind_ret_l.
  rewrite (prop_get_def object key Hobj), bind_ret_l.
  rewrite Hrule. simpl.
  rewrite (validatePrimitiveField_ok key object root slots Hobj Hall), bind_ok.
  simpl. rewrite app_nil_r.
  now destruct (rule_violations call slots (get_prop object key) root).
Qed.

Lemma assoc_In k props x : assoc k props = Some x -> In (k, x) props.
Proof.
  induction props as [|[k0 v0] rest IH]; simpl; [discriminate|].
  destruct (k0 =? k) eqn:E.
  - apply String.eqb_eq in E. intros H; inversion H; subst. now left.
  - intros H. right. now apply IH.
Qed.

Lemma In_keys_assoc k props :
  In k (map fst props) -> exists x, assoc k props = Some x.
Proof.
  induction props as [|[k0 v0] rest IH]; simpl; [tauto|].
  destruct (k0 =? k) eqn:E; [eauto|].
  intros [H | H]; [|now apply IH].
  subst. rewrite String.eqb_refl in E. discriminate.
Qed.

(** C1: a nothing object (undefined or null) is validated exactly as the
    empty object, for every rule-set and root; the walk visits the keys the
    rule-set declares, so on a rule-set of primitive rule lists every
    declared field reports the violations its rules produce on a missing
    value. *)
Theorem nothing_object_is_empty_object :
  (forall fuel root R,
      validateObject call fuel VUndefined root R
      = validateObject call fuel (VObj []) root R)
  /\ (forall fuel root R,
        validateObject call fuel VNull root R
        = validateObject call fuel (VObj []) root R)
  /\ (forall fuel root fields,
        forallb (fun p => primitive_rule (snd p)) fields = true ->
        exists tree,
          result (validateObject call (S fuel) VUndefined root (VObj fields))
            = Ok tree
          /\ forall key slots,
              assoc key fields = Some (VArr slots) ->
              get_prop tree key
              = match rule_violations call slots VUndefined root with
                | [] => VUndefined
                | v :: vs => VArr (v :: vs)
                end).
Proof.
  split; [|split].
  - intros. now apply validateObject_falsy_object.
  - intros. now apply validateObject_falsy_object.
  - intros fuel root fields Hflat.
    assert (Hfield : forall key, In key (own_keys (VObj fields)) ->
              exists slots, assoc key fields = Some (VArr slots)
                /\ field_errors call (validateObject call fuel) fuel
                     (effective_object VUndefined) root (VObj fields) key
                   = (rule_calls slots VUndefined root,
                      Ok (match rule_violations call slots VUndefined root with
                          | [] => None
                          | v :: vs => Some (VArr (v :: vs))
                          end))).
    { intros key Hin. destruct (In_keys_assoc key fields Hin) as [rule Hrule].
      assert (Hp : primitive_rule rule = true).
      { rewrite forallb_forall in Hflat.
        apply (Hflat (key, rule)). now apply assoc_In. }
      destruct rule; simpl in Hp; try discriminate.
      exists elems. split; [exact Hrule|].
      assert (Hget : get_prop (VObj fields) key = VArr elems)
        by (rewrite get_prop_obj; now rewrite Hrule).
      pose proof (field_errors_primitive (validateObject call fuel) fuel
                    (effective_object VUndefined) root (VObj fields) key elems
                    eq_refl eq_refl Hget Hp) as E.
      change (effective_object VUndefined) with (VObj []) in *.
      rewrite (get_prop_obj [] key) in E. exact E. }
    rewrite validateObject_ok; [| reflexivity |].
    + eexists. split; [reflexivity|]. intros key slots Hassoc.
      rewrite get_prop_assemble by (now left).
      assert (Hin : In key (own_keys (VObj fields))).
      { apply assoc_In in Hassoc. unfold own_keys; simpl.
        apply in_map_iff. exists (key, VArr slots). auto. }
      rewrite (proj2 (string_mem_In key _) Hin).
      destruct (Hfield key Hin) as (slots' & Hassoc' & Hfe).
      rewrite Hassoc in Hassoc'. inversion Hassoc'; subst slots'.
      unfold verdict_of. rewrite Hfe. simpl.
      rewrite get_prop_undefined. now destruct (rule_violations call slots VUndefined root).
    + apply forallb_forall. intros key Hin.
      destruct (Hfield key Hin) as (slots & _ & Hfe).
      unfold is_ok. now rewrite Hfe.
Qed.

(** C2: the error tree [validateObject] returns is absent or has at least
    one key; each of its keys is a key the rule-set declares, whose field
    failed, and holds what that field reported; and when every declared
    field passes, the call returns nothing. *)
Theorem error_tree_mirrors_rules fuel O root R :
  let verdict k :=
    field_errors call (validateObject call fuel) fuel (effective_object O) root R k in
  (forall t tree,
      validateObject call (S fuel) O root R = (t, Ok tree) ->
      tree_shape tree
      /\ forall k, In k (own_keys tree) ->
                   In k (own_keys R)
                   /\ exists e, result (verdict k) = Ok (Some e)
                                /\ get_prop tree k = e)
  /\ (truthy R = true ->
      (forall k, In k (own_keys R) -> result (verdict k) = Ok None) ->
      result (validateObject call (S fuel) O root R) = Ok VUndefined).
Proof.
  intros verdict. split.
  - intros t tree H.
    destruct (validateObject_ok_inv fuel O root R t tree H) as [HR Hall].
    rewrite (validateObject_ok fuel O root R HR Hall) in H.
    inversion H as [[Ht Htree]]. clear H Ht.
    assert (Hund : tree_shape VUndefined) by (now left).
    split; [now apply tree_shape_assemble|].
    intros k Hk.
    apply (keys_assemble _ (own_keys R) VUndefined k Hund) in Hk.
    destruct Hk as [[] | [Hin Hv]].
    split; [exact Hin|].
    rewrite (get_prop_assemble _ (own_keys R) VUndefined k Hund).
    rewrite (proj2 (string_mem_In k _) Hin).
    fold (verdict k) in *. unfold verdict_of in *.
    destruct (result (verdict k)) as [[e|]| | |]; try congruence.
    exists e. auto.
  - intros HR Hpass.
    assert (Hall : forallb (fun k => is_ok (verdict k)) (own_keys R) = true).
    { apply forallb_forall. intros k Hin. unfold is_ok. now rewrite (Hpass k Hin). }
    rewrite (validateObject_ok fuel O root R HR Hall). simpl. f_equal.
    apply assemble_errors_none. intros k Hin.
    fold (verdict k). unfold verdict_of. now rewrite (Hpass k Hin).
Qed.

(** *** Dispatch of one field *)

Ltac enter_field_step HR Hobj :=
  unfold field_step;
  rewrite (prop_get_def _ _ HR), bind_ret_l;
  rewrite (prop_get_def _ _ Hobj), bind_ret_l.

Lemma field_step_skip rec fuel object root R errors key :
  nullish R = false ->
  nullish object = false ->
  truthy (get_prop R key) = false ->
  field_step call rec fuel object root R errors key = ([], Ok errors).
Proof. intros HR Hobj Hrule. enter_field_step HR Hobj. now rewrite Hrule. Qed.

Lemma field_step_bad_type rec fuel object root R errors key :
  nullish R = false ->
  nullish object = false ->
  truthy (get_prop R key) = true ->
  string_mem (typeof (get_prop R key)) ["array"; "object"; "function"] = false ->
  field_step call rec fuel object root R errors key
  = ([], Throw (Error (typeof (get_prop R key) ++ " is not a valid rule."))).
Proof.
  intros HR Hobj Hrule Htype. enter_field_step HR Hobj. rewrite Hrule.
  unfold string_mem in Htype. simpl negb at 1. cbv iota.
  now rewrite Htype.
Qed.

(** An array index is never the key [arrayRules] or [arrayElementRule]. *)
Lemma index_key_not_array_rule_key i :
  (index_key i =? "arrayRules") = false
  /\ (index_key i =? "arrayElementRule") = false.
Proof. unfold index_key. destruct (Nat.to_uint i); split; reflexivity. Qed.

Lemma array_has_no_array_rule_keys elems :
  get_prop (VArr elems) "arrayRules" = VUndefined
  /\ get_prop (VArr elems) "arrayElementRule" = VUndefined.
Proof.
  assert (H : forall i,
             assoc "arrayRules"
               (map (fun p => (index_key (fst p), snd p)) (indexed_from i elems)) = None
             /\ assoc "arrayElementRule"
               (map (fun p => (index_key (fst p), snd p)) (indexed_from i elems)) = None).
  { induction elems as [|x xs IH]; intros i; simpl; [auto|].
    destruct (index_key_not_array_rule_key i) as [-> ->]. apply IH. }
  unfold get_prop, own_props, indexed.
  destruct (H 0) as [-> ->]. auto.
Qed.

(** A resolved rule with neither [arrayRules] nor [arrayElementRule] makes
    the array field validator return the empty object. *)
Lemma validateArrayField_no_parts rec fuel key object root rule :
  nullish object = false ->
  nullish rule = false ->
  isFunction rule = false ->
  get_prop rule "arrayRules" = VUndefined ->
  get_prop rule "arrayElementRule" = VUndefined ->
  validateArrayField call rec fuel key object root rule = ([], Ok (VObj [])).
Proof.
  intros Hobj Hrule Hfun H1 H2.
  rewrite (validateArrayField_static rec fuel key object root rule Hobj Hrule Hfun).
  rewrite H1, H2. reflexivity.
Qed.

(** How the loop body treats a rule that is a function. *)
Lemma field_step_builder rec fuel object root R errors key f :
  nullish R = false ->
  nullish object = false ->
  get_prop R key = VFun f ->
  field_step call rec (S fuel) object root R errors key
  = bind (invoke call f (get_prop object key) root)
      (fun arrayRule =>
         bind (validateArrayField call rec fuel key object root arrayRule)
           (fun result =>
              ret (if truthy (get_prop result "arrayErrors")
                      || truthy (get_prop result "arrayElementErrors")
                   then assignErrorsIfAny errors key result
                   else errors))).
Proof.
  intros HR Hobj Hrule. enter_field_step HR Hobj. rewrite Hrule.
  simpl truthy. simpl negb. cbv iota. simpl typeof. simpl existsb. cbv iota.
  simpl isArray. cbv iota.
  change (isArrayValidationRule (VFun f)) with true. cbv iota.
  rewrite (validateArrayField_builder rec fuel key object root f Hobj).
  rewrite bind_assoc. apply bind_ext. intros arrayRule.
  apply bind_ext. intros r.
  now destruct (truthy (get_prop r "arrayErrors")
                || truthy (get_prop r "arrayElementErrors")).
Qed.

(** How the loop body treats a static array rule. *)
Lemma field_step_array_rule rec fuel object root R errors key props :
  nullish R = false ->
  nullish object = false ->
  get_prop R key = VObj props ->
  isArrayValidationRule (VObj props) = true ->
  field_step call rec fuel object root R errors key
  = bind (bind (array_rules_part call key object root
                  (get_prop (VObj props) "arrayRules") (VObj []))
               (array_elements_part call rec root
                  (get_prop (VObj props) "arrayElementRule") (get_prop object key)))
         (fun result =>
            ret (if truthy (get_prop result "arrayErrors")
                    || truthy (get_prop result "arrayElementErrors")
                 then assignErrorsIfAny errors key result
                 else errors)).
Proof.
  intros HR Hobj Hrule Harr. enter_field_step HR Hobj. rewrite Hrule.
  simpl truthy. simpl negb. cbv iota. simpl typeof. simpl existsb. cbv iota.
  simpl isArray. cbv iota. rewrite Harr.
  rewrite (validateArrayField_static rec fuel key object root (VObj props) Hobj
             eq_refl eq_refl).
  apply bind_ext. intros r.
  now destruct (truthy (get_prop r "arrayErrors")
                || truthy (get_prop r "arrayElementErrors")).
Qed.

(** How the loop body treats a rule that is a function, at any budget. *)
Lemma field_step_function rec fuel object root R errors key f :
  nullish R = false ->
  nullish object = false ->
  get_prop R key = VFun f ->
  field_step call rec fuel object root R errors key
  = bind (validateArrayField call rec fuel key object root (VFun f))
         (fun result =>
            ret (if truthy (get_prop result "arrayErrors")
                    || truthy (get_prop result "arrayElementErrors")
                 then assignErrorsIfAny errors key result
                 else errors)).
Proof.
  intros HR Hobj Hrule. enter_field_step HR Hobj. rewrite Hrule.
  simpl truthy. simpl negb. cbv iota. simpl typeof. simpl existsb. cbv iota.
  simpl isArray. cbv iota.
  change (isArrayValidationRule (VFun f)) with true. cbv iota.
  apply bind_ext. intros r.
  now destruct (truthy (get_prop r "arrayErrors")
                || truthy (get_prop r "arrayElementErrors")).
Qed.

(** C3 (amended): the run of a field whose rule is a function is one call
    of the builder on [(value, root)] followed by the run of the array
    field validator on the rule it returns; that rule is not classified
    again.  When the builder resolves to an array rule, or to another
    builder, the field is processed exactly as under the resolved rule
    authored statically, after that one call (a resolved builder is in turn
    called by the array field validator).  When it resolves to a primitive
    rule list, or to an object with neither an [arrayRules] nor an
    [arrayElementRule] key, the field reports nothing. *)
Theorem builder_rule_is_array_rule rec fuel object root R errors key f :
  nullish R = false ->
  nullish object = false ->
  get_prop R key = VFun f ->
  let value := get_prop object key in
  let resolved := call f value root in
  field_step call rec (S fuel) object root R errors key
    = bind (invoke call f value root)
        (fun arrayRule =>
           bind (validateArrayField call rec fuel key object root arrayRule)
             (fun result =>
                ret (if truthy (get_prop result "arrayErrors")
                        || truthy (get_prop result "arrayElementErrors")
                     then assignErrorsIfAny errors key result
                     else errors)))
  /\ (forall fuel' R' props,
        nullish R' = false ->
        get_prop R' key = VObj props ->
        resolved = VObj props ->
        isArrayValidationRule (VObj props) = true ->
        field_step call rec (S fuel) object root R errors key
        = (Call f value root
             :: calls (field_step call rec fuel' object root R' errors key),
           result (field_step call rec fuel' object root R' errors key)))
  /\ (forall R' g,
        nullish R' = false ->
        get_prop R' key = VFun g ->
        resolved = VFun g ->
        field_step call rec (S fuel) object root R errors key
        = (Call f value root
             :: calls (field_step call rec fuel object root R' errors key),
           result (field_step call rec fuel object root R' errors key)))
  /\ (forall slots,
        resolved = VArr slots ->
        field_step call rec (S fuel) object root R errors key
        = ([Call f value root], Ok errors))
  /\ (forall props,
        resolved = VObj props ->
        assoc "arrayRules" props = None ->
        assoc "arrayElementRule" props = None ->
        field_step call rec (S fuel) object root R errors key
        = ([Call f value root], Ok errors)).
Proof.
  intros HR Hobj Hrule value resolved.
  pose proof (field_step_builder rec fuel object root R errors key f HR Hobj Hrule)
    as E.
  fold value in E. split; [exact E|]. rewrite E. unfold invoke. rewrite bind_ok.
  fold resolved. split; [|split; [|split]].
  2:{ intros R' g HR' Hrule' Hres.
      rewrite (field_step_function rec fuel object root R' errors key g
                 HR' Hobj Hrule').
      rewrite Hres. reflexivity. }
  - intros fuel' R' props HR' Hrule' Hres Harr.
    rewrite (field_step_array_rule rec fuel' object root R' errors key props
               HR' Hobj Hrule' Harr).
    rewrite Hres.
    rewrite (validateArrayField_static rec fuel key object root (VObj props) Hobj
               eq_refl eq_refl).
    reflexivity.
  - intros slots Hres. rewrite Hres.
    destruct (array_has_no_array_rule_keys slots) as [H1 H2].
    rewrite (validateArrayField_no_parts rec fuel key object root (VArr slots)
               Hobj eq_refl eq_refl H1 H2).
    reflexivity.
  - intros props Hres H1 H2. rewrite Hres.
    rewrite (validateArrayField_no_parts rec fuel key object root (VObj props)
               Hobj eq_refl eq_refl).
    + reflexivity.
    + rewrite get_prop_obj. now rewrite H1.
    + rewrite get_prop_obj. now rewrite H2.
Qed.

(** C7 (amended): configuration errors are thrown, not stored in the tree.
    [validateObject] throws when the rule-set is falsy; it throws, on
    reaching the field and before any call for it, when a field's rule is a
    truthy value whose type is neither object nor function; the primitive
    validator throws on reaching a slot that is truthy and not a function.
    A falsy rule and a falsy slot are skipped. *)
Theorem configuration_errors_are_thrown :
  (forall fuel O root R,
      truthy R = false ->
      validateObject call (S fuel) O root R
      = ([], Throw (Error "validant: validation rule is null or undefined.")))
  /\ (forall fuel O root R pre key post,
        truthy R = true ->
        own_keys R = pre ++ key :: post ->
        forallb (fun k => is_ok (field_errors call (validateObject call fuel) fuel
                                   (effective_object O) root R k)) pre = true ->
        truthy (get_prop R key) = true ->
        string_mem (typeof (get_prop R key)) ["array"; "object"; "function"] = false ->
        validateObject call (S fuel) O root R
        = (List.concat
             (map (fun k => calls (field_errors call (validateObject call fuel) fuel
                                     (effective_object O) root R k)) pre),
           Throw (Error (typeof (get_prop R key) ++ " is not a valid rule."))))
  /\ (forall rec fuel object root R errors key,
        nullish R = false ->
        nullish object = false ->
        truthy (get_prop R key) = false ->
        field_step call rec fuel object root R errors key = ([], Ok errors))
  /\ (forall key object root pre slot post,
        nullish object = false ->
        forallb slot_ok pre = true ->
        truthy slot = true ->
        isFunction slot = false ->
        validatePrimitiveField call key object root (VArr (pre ++ slot :: post))
        = (rule_calls pre (get_prop object key) root,
           Throw (Error "propertyRuleFunc is not a function")))
  /\ (forall key object root pre slot post,
        truthy slot = false ->
        validatePrimitiveField call key object root (VArr (pre ++ slot :: post))
        = validatePrimitiveField call key object root (VArr (pre ++ post))).
Proof.
  split; [|split; [|split; [|split]]].
  - intros. now apply validateObject_no_rules.
  - intros fuel O root R pre key post HR Hkeys Hpre Hrule Htype.
    rewrite (validateObject_unfold fuel O root R HR), Hkeys, foldM_app.
    rewrite (foldM_field_steps _ _ _ _ _ _ _ Hpre), bind_ok. simpl foldM.
    rewrite (field_step_bad_type _ _ _ _ _ _ _
               (truthy_not_nullish R HR) (effective_object_not_nullish O)
               Hrule Htype).
    unfold bind; simpl. now rewrite app_nil_r.
  - intros. now apply field_step_skip.
  - intros key object root pre slot post Hobj Hpre Hslot Hfun.
    rewrite validatePrimitiveField_slots, foldM_app.
    rewrite (primitive_slots_ok key object root pre [] Hobj Hpre), bind_assoc, bind_ok.
    simpl foldM.
    assert (Hthrow : forall acc,
               primitive_slot call key object root acc slot
               = ([], Throw (Error "propertyRuleFunc is not a function"))).
    { intros acc. unfold primitive_slot. rewrite Hslot.
      destruct slot; simpl in *; try discriminate; reflexivity. }
    rewrite Hthrow. unfold bind; simpl. now rewrite app_nil_r.
  - intros key object root pre slot post Hslot.
    rewrite !validatePrimitiveField_slots, !foldM_app.
    f_equal. apply bind_ext. intros acc. simpl foldM.
    unfold primitive_slot at 1. rewrite Hslot. simpl negb. cbv iota.
    now rewrite bind_ret_l.
Qed.

(** C9: under a nested rule-set, a field value of null is dispatched as an
    object and validated as the empty object against the nested rule-set,
    its error tree stored when there is one; a field value of undefined is
    not dispatched at all, makes no call and reports nothing. *)
Theorem null_undefined_asymmetry fuel object root R errors key props :
  nullish R = false ->
  nullish object = false ->
  get_prop R key = VObj props ->
  isArrayValidationRule (VObj props) = false ->
  (get_prop object key = VNull ->
   field_step call (validateObject call fuel) fuel object root R errors key
   = bind (validateObject call fuel (VObj []) root (VObj props))
          (fun error =>
             ret (if truthy error then assignErrorsIfAny errors key error
                  else errors)))
  /\ (get_prop object key = VUndefined ->
      field_step call (validateObject call fuel) fuel object root R errors key
      = ([], Ok errors)).
Proof.
  intros HR Hobj Hrule Harr. split; intros Hval.
  - enter_field_step HR Hobj. rewrite Hrule, Hval.
    simpl truthy. simpl negb. cbv iota. simpl typeof. simpl existsb. cbv iota.
    simpl isArray. cbv iota. rewrite Harr. simpl String.eqb. cbv iota.
    unfold validateObjectField.
    rewrite (prop_get_def object key Hobj), bind_ret_l, Hval.
    rewrite (validateObject_falsy_object fuel VNull root (VObj props) eq_refl).
    rewrite !bind_assoc. apply bind_ext. intros error.
    rewrite bind_ret_l. simpl. now destruct (truthy error).
  - enter_field_step HR Hobj. rewrite Hrule, Hval.
    simpl truthy. simpl negb. cbv iota. simpl typeof. simpl existsb. cbv iota.
    simpl isArray. cbv iota. rewrite Harr. reflexivity.
Qed.

(** C10: the rule [{}] has no own key, so it passes the array-rule test; a
    field under it is dispatched to the array field validator, the walker
    is not entered for it, no call is made and the field reports nothing,
    whatever its value. *)
Theorem empty_rule_is_array_rule :
  isArrayValidationRule (VObj []) = true
  /\ (forall rec fuel object root R errors key,
        nullish R = false ->
        nullish object = false ->
        get_prop R key = VObj [] ->
        field_step call rec fuel object root R errors key
        = bind (validateArrayField call rec fuel key object root (VObj []))
               (fun _ => ret errors)
        /\ validateArrayField call rec fuel key object root (VObj [])
           = ([], Ok (VObj []))
        /\ field_step call rec fuel object root R errors key = ([], Ok errors))
  /\ (forall fuel O root key,
        validateObject call (S fuel) O root (VObj [(key, VObj [])])
        = ([], Ok VUndefined)).
Proof.
  split; [reflexivity|].
  assert (Hstep : forall rec fuel object root R errors key,
             nullish R = false -> nullish object = false ->
             get_prop R key = VObj [] ->
             field_step call rec fuel object root R errors key = ([], Ok errors)).
  { intros rec fuel object root R errors key HR Hobj Hrule.
    rewrite (field_step_array_rule rec fuel object root R errors key []
               HR Hobj Hrule eq_refl).
    reflexivity. }
  split.
  - intros rec fuel object root R errors key HR Hobj Hrule.
    assert (Hv : validateArrayField call rec fuel key object root (VObj [])
                 = ([], Ok (VObj []))).
    { apply validateArrayField_no_parts; auto. }
    split; [|split; [exact Hv|now apply Hstep]].
    rewrite Hv. unfold bind, ret; simpl. now apply Hstep.
  - intros fuel O root key.
    rewrite (validateObject_unfold fuel O root (VObj [(key, VObj [])]) eq_refl).
    simpl foldM. rewrite Hstep; [reflexivity|reflexivity| |].
    + apply effective_object_not_nullish.
    + rewrite get_prop_obj. simpl. now rewrite String.eqb_refl.
Qed.

End Properties.

(** * Instances on the example rule library *)

(** C1 at a concrete rule-set: the scenario
    [{ name: [required], age: [required] }] on a missing object. *)
Lemma nothing_object_is_empty_object_witness :
  let fields := [("name", VArr [VFun 0]); ("age", VArr [VFun 0])] in
  forallb (fun p => primitive_rule (snd p)) fields = true
  /\ validateObject ex_call 1 VUndefined VUndefined (VObj fields)
     = validateObject ex_call 1 (VObj []) VUndefined (VObj fields)
  /\ exists tree,
       result (validateObject ex_call 1 VUndefined VUndefined (VObj fields)) = Ok tree
       /\ forall key slots,
           assoc key fields = Some (VArr slots) ->
           get_prop tree key
           = match rule_violations ex_call slots VUndefined VUndefined with
             | [] => VUndefined
             | v :: vs => VArr (v :: vs)
             end.
Proof.
  intros fields. split; [reflexivity|]. split.
  - exact (proj1 (nothing_object_is_empty_object ex_call) 1 VUndefined (VObj fields)).
  - exact (proj2 (proj2 (nothing_object_is_empty_object ex_call))
             0 VUndefined fields eq_refl).
Defined.

(** C2 at a concrete input: one failing and one passing field, and an
    object key the rule-set does not declare. *)
Lemma error_tree_mirrors_rules_witness :
  let O := VObj [("name", VStr ""); ("age", VNum 3); ("extra", VNull)] in
  let R := VObj [("name", VArr [VFun 0]); ("age", VArr [VFun 0])] in
  let t := [Call 0 (VStr "") O; Call 0 (VNum 3) O] in
  let tree := VObj [("name", VArr [required_message])] in
  validateObject ex_call 1 O O R = (t, Ok tree)
  /\ tree_shape tree
  /\ (forall k, In k (own_keys tree) ->
        In k (own_keys R)
        /\ exists e,
            result (field_errors ex_call (validateObject ex_call 0) 0
                      (effective_object O) O R k) = Ok (Some e)
            /\ get_prop tree k = e).
Proof.
  intros O R t tree. split; [reflexivity|].
  exact (proj1 (error_tree_mirrors_rules ex_call 0 O O R) t tree eq_refl).
Defined.

(** C3, as first stated, fails: the builder [1] resolves to the primitive
    rule list [[required]], and the builder [4] to the nested rule-set
    [{ name: [required] }]; each static form reports a violation, each
    builder form reports nothing. *)
Lemma builder_rule_counterexample :
  let object := VObj [("customer", VObj [])] in
  ex_call 1 (get_prop object "name") object = VArr [VFun 0]
  /\ result (validateObject ex_call 2 object object (VObj [("name", VArr [VFun 0])]))
     = Ok (VObj [("name", VArr [required_message])])
  /\ result (validateObject ex_call 2 object object (VObj [("name", VFun 1)]))
     = Ok VUndefined
  /\ ex_call 4 (get_prop object "customer") object = VObj [("name", VArr [VFun 0])]
  /\ result (validateObject ex_call 2 object object
               (VObj [("customer", VObj [("name", VArr [VFun 0])])]))
     = Ok (VObj [("customer", VObj [("name", VArr [required_message])])])
  /\ result (validateObject ex_call 2 object object (VObj [("customer", VFun 4)]))
     = Ok VUndefined
  /\ result (validateObject ex_call 2 object object (VObj [("name", VFun 1)]))
     <> result (validateObject ex_call 2 object object (VObj [("name", VArr [VFun 0])])).
Proof.
  intros object. repeat split; try reflexivity. discriminate.
Defined.

(** C3 (amended) at concrete inputs: the builder [2] resolves to an array
    rule and the field is processed as under that rule; the builder [1]
    resolves to a primitive rule list and the field reports nothing; in the
    library [chain_call] the builder [1] resolves to the builder [2], and
    the field is processed as under the builder [2], after the one call. *)
Lemma builder_rule_is_array_rule_witness :
  let object := VObj [("items", VArr [VObj []])] in
  let rec := validateObject ex_call 2 in
  let props := [("arrayRules", VArr [VFun 3]);
                ("arrayElementRule", VObj [("name", VArr [VFun 0])])] in
  let R := VObj [("items", VFun 2); ("name", VFun 1)] in
  let R' := VObj [("items", VObj props)] in
  let empty := VObj [("items", VArr [])] in
  let chain := validateObject chain_call 2 in
  let Rc := VObj [("items", VFun 1)] in
  let Rc' := VObj [("items", VFun 2)] in
  nullish R = false
  /\ nullish object = false
  /\ get_prop R "items" = VFun 2
  /\ get_prop R "name" = VFun 1
  /\ field_step ex_call rec 1 object object R VUndefined "items"
     = (Call 2 (VArr [VObj []]) object
          :: calls (field_step ex_call rec 0 object object R' VUndefined "items"),
        result (field_step ex_call rec 0 object object R' VUndefined "items"))
  /\ field_step ex_call rec 1 object object R VUndefined "name"
     = ([Call 1 VUndefined object], Ok VUndefined)
  /\ chain_call 1 (get_prop empty "items") empty = VFun 2
  /\ field_step chain_call chain 2 empty empty Rc VUndefined "items"
     = (Call 1 (VArr []) empty
          :: calls (field_step chain_call chain 1 empty empty Rc' VUndefined "items"),
        result (field_step chain_call chain 1 empty empty Rc' VUndefined "items"))
  /\ field_step chain_call chain 2 empty empty Rc VUndefined "items"
     = ([Call 1 (VArr []) empty; Call 2 (VArr []) empty; Call 3 (VArr []) empty],
        Ok (VObj [("items",
                   VObj [("arrayErrors", VArr [VStr "The array is empty."])])])).
Proof.
  intros object rec props R R' empty chain Rc Rc'.
  do 4 (split; [reflexivity|]). split; [|split; [|split; [reflexivity|split]]].
  - exact (proj1 (proj2 (builder_rule_is_array_rule ex_call rec 0 object object R
                          VUndefined "items" 2 eq_refl eq_refl eq_refl))
             0 R' props eq_refl eq_refl eq_refl eq_refl).
  - exact (proj1 (proj2 (proj2 (proj2
             (builder_rule_is_array_rule ex_call rec 0 object object R
                VUndefined "name" 1 eq_refl eq_refl eq_refl))))
             [VFun 0] eq_refl).
  - exact (proj1 (proj2 (proj2
             (builder_rule_is_array_rule chain_call chain 1 empty empty Rc
                VUndefined "items" 1 eq_refl eq_refl eq_refl)))
             Rc' 2 eq_refl eq_refl eq_refl).
  - reflexivity.
Defined.

(** C4 on the rule list [[required, nonEmpty]]: the loop of lines 72-79
    runs the complete list once per slot, so each of the two rule functions
    is called twice in one validation call; [arrayErrors] holds each
    violation once, in list order. *)
Theorem array_rules_evaluated_per_slot :
  let object := VObj [] in
  let rule := VObj [("arrayRules", VArr [VFun 0; VFun 3])] in
  calls (validateObject ex_call 1 object object (VObj [("items", rule)]))
  = [Call 0 VUndefined object; Call 3 VUndefined object;
     Call 0 VUndefined object; Call 3 VUndefined object]
  /\ result (validateObject ex_call 1 object object (VObj [("items", rule)]))
     = Ok (VObj [("items",
                  VObj [("arrayErrors",
                         VArr [required_message; VStr "The array is empty."])])])
  /\ List.length
       (filter (fun ev => Nat.eqb (callee ev) 0)
          (calls (validateObject ex_call 1 object object (VObj [("items", rule)]))))
     = 2.
Proof. repeat split; reflexivity. Qed.

(** C5 at a concrete array: the second and fourth elements fail. *)
Lemma element_errors_listed_witness :
  let elems := [VObj [("name", VStr "a")]; VObj []; VObj [("name", VStr "b")]; VNull] in
  let object := VObj [("items", VArr elems)] in
  let er := VObj [("name", VArr [VFun 0])] in
  let rule := VObj [("arrayElementRule", er)] in
  let rec := validateObject ex_call 1 in
  let error := VObj [("name", VArr [required_message])] in
  (nullish object = false
   /\ nullish rule = false
   /\ isFunction rule = false
   /\ get_prop object "items" = VArr elems
   /\ truthy (get_prop rule "arrayElementRule") = true
   /\ array_rules_part ex_call "items" object object (get_prop rule "arrayRules")
        (VObj []) = ([], Ok (VObj []))
   /\ forallb (fun e => is_ok (validate_element ex_call rec object
                                 (get_prop rule "arrayElementRule") e)) elems = true)
  /\ result (validateArrayField ex_call rec 0 "items" object object rule)
     = Ok (VObj [("arrayElementErrors",
                  VArr [VObj [("index", VNum 1); ("errors", error);
                              ("attemptedValue", VObj [])];
                        VObj [("index", VNum 3); ("errors", error);
                              ("attemptedValue", VNull)]])])
  /\ (exists res entries,
         result (validateArrayField ex_call rec 0 "items" object object rule) = Ok res
         /\ get_prop res "arrayElementErrors"
            = match entries with [] => VUndefined | _ :: _ => VArr entries end
         /\ StronglySorted Z.lt (map entry_index entries)
         /\ (forall entry,
               In entry entries <->
               exists i e err,
                 nth_error elems i = Some e
                 /\ result (validate_element ex_call rec object er e) = Ok err
                 /\ truthy err = true
                 /\ entry = VObj [("index", VNum (Z.of_nat i));
                                  ("errors", err);
                                  ("attemptedValue", e)])).
Proof.
  intros elems object er rule rec error.
  split; [repeat split; reflexivity|]. split; [reflexivity|].
  exact (element_errors_listed ex_call rec 0 "items" object object rule elems
           [] (VObj []) eq_refl eq_refl eq_refl eq_refl eq_refl eq_refl eq_refl).
Defined.

(** C6 at a concrete rule list: both functions fail on the empty string
    and both violations are reported; the skipped slot and the passing
    function contribute nothing. *)
Lemma primitive_rules_accumulate_witness :
  let object := VObj [("name", VStr "")] in
  let slots := [VFun 0; VUndefined; VFun 3; VFun 5] in
  nullish object = false
  /\ forallb slot_ok slots = true
  /\ calls (validatePrimitiveField ex_call "name" object VNull (VArr slots))
     = [Call 0 (VStr "") VNull; Call 3 (VStr "") VNull; Call 5 (VStr "") VNull]
  /\ result (validatePrimitiveField ex_call "name" object VNull (VArr slots))
     = Ok {| PR.isValid := false;
             PR.errors := [required_message; VStr "The array is empty."] |}.
Proof.
  intros object slots. split; [reflexivity|]. split; [reflexivity|].
  exact (primitive_rules_accumulate ex_call "name" object VNull slots eq_refl eq_refl).
Defined.

(** C7, as first stated, fails: the slot [false] and the rule [0] are
    present values that are not functions, resp. not of an accepted type,
    and neither makes the code throw. *)
Lemma configuration_errors_counterexample :
  validatePrimitiveField ex_call "name" (VObj []) VNull (VArr [VBool false])
  = ([], Ok {| PR.isValid := true; PR.errors := [] |})
  /\ typeof (VNum 0) = "number"
  /\ validateObject ex_call 1 (VObj []) VNull (VObj [("name", VNum 0)])
     = ([], Ok VUndefined).
Proof. repeat split; reflexivity. Defined.

(** C7 (amended) at concrete inputs. *)
Lemma configuration_errors_are_thrown_witness :
  let object := VObj [] in
  validateObject ex_call 1 object object VUndefined
  = ([], Throw (Error "validant: validation rule is null or undefined."))
  /\ validateObject ex_call 1 object object
       (VObj [("name", VArr [VFun 0]); ("age", VNum 7); ("city", VArr [VFun 0])])
     = ([Call 0 VUndefined object], Throw (Error "number is not a valid rule."))
  /\ field_step ex_call (validateObject ex_call 0) 0 object object
       (VObj [("name", VNull)]) VUndefined "name"
     = ([], Ok VUndefined)
  /\ validatePrimitiveField ex_call "name" object object
       (VArr [VFun 0; VStr "required"; VFun 0])
     = ([Call 0 VUndefined object], Throw (Error "propertyRuleFunc is not a function"))
  /\ validatePrimitiveField ex_call "name" object object
       (VArr [VFun 0; VBool false; VFun 0])
     = validatePrimitiveField ex_call "name" object object (VArr [VFun 0; VFun 0]).
Proof.
  intros object.
  destruct (configuration_errors_are_thrown ex_call) as (H1 & H2 & H3 & H4 & H5).
  split; [exact (H1 0 object object VUndefined eq_refl)|].
  split; [exact (H2 0 object object
                    (VObj [("name", VArr [VFun 0]); ("age", VNum 7);
                           ("city", VArr [VFun 0])])
                    ["name"] "age" ["city"] eq_refl eq_refl eq_refl eq_refl eq_refl)|].
  split; [exact (H3 (validateObject ex_call 0) 0 object object
                    (VObj [("name", VNull)]) VUndefined "name"
                    eq_refl eq_refl eq_refl)|].
  split; [exact (H4 "name" object object [VFun 0] (VStr "required") [VFun 0]
                    eq_refl eq_refl eq_refl eq_refl)|].
  exact (H5 "name" object object [VFun 0] (VBool false) [VFun 0] eq_refl).
Defined.

(** C8 at a concrete input: a string where an array is expected. *)
Lemma non_array_value_skips_elements_witness :
  let object := VObj [("items", VStr "abc")] in
  let rule := VObj [("arrayRules", VArr [VFun 3]);
                    ("arrayElementRule", VObj [("name", VArr [VFun 0])])] in
  let rec := validateObject ex_call 1 in
  (nullish object = false /\ nullish rule = false /\ isFunction rule = false
   /\ isArray (get_prop object "items") = false)
  /\ validateArrayField ex_call rec 0 "items" object object rule
     = ([Call 3 (VStr "abc") object],
        Ok (VObj [("arrayErrors", VArr [VStr "The array is empty."])]))
  /\ (forall res,
        result (validateArrayField ex_call rec 0 "items" object object rule) = Ok res ->
        get_prop res "arrayElementErrors" = VUndefined).
Proof.
  intros object rule rec. split; [repeat split; reflexivity|].
  pose proof (non_array_value_skips_elements ex_call rec 0 "items" object object rule
                eq_refl eq_refl eq_refl eq_refl) as H.
  split; [|exact (proj1 (proj2 H))].
  rewrite (proj1 H). reflexivity.
Defined.

(** C9 at a concrete input: [customer: null] surfaces the nested required
    violation, [customer: undefined] reports nothing. *)
Lemma null_undefined_asymmetry_witness :
  let props := [("fullName", VArr [VFun 0])] in
  let R := VObj [("customer", VObj props)] in
  let with_null := VObj [("customer", VNull)] in
  let with_undefined := VObj [("customer", VUndefined)] in
  (nullish R = false /\ get_prop R "customer" = VObj props
   /\ isArrayValidationRule (VObj props) = false)
  /\ field_step ex_call (validateObject ex_call 1) 1 with_null VNull R VUndefined "customer"
     = ([Call 0 VUndefined VNull],
        Ok (VObj [("customer", VObj [("fullName", VArr [required_message])])]))
  /\ field_step ex_call (validateObject ex_call 1) 1 with_undefined VNull R
       VUndefined "customer"
     = ([], Ok VUndefined).
Proof.
  intros props R with_null with_undefined. split; [repeat split; reflexivity|]. split.
  - rewrite (proj1 (null_undefined_asymmetry ex_call 1 with_null VNull R VUndefined
                      "customer" props eq_refl eq_refl eq_refl eq_refl) eq_refl).
    reflexivity.
  - exact (proj2 (null_undefined_asymmetry ex_call 1 with_undefined VNull R VUndefined
                    "customer" props eq_refl eq_refl eq_refl eq_refl) eq_refl).
Defined.

(** C10 at a concrete input: an array of invalid elements under the rule
    [{}] reports nothing. *)
Lemma empty_rule_is_array_rule_witness :
  let object := VObj [("items", VArr [VObj []; VNull])] in
  let R := VObj [("items", VObj [])] in
  (nullish R = false /\ nullish object = false /\ get_prop R "items" = VObj [])
  /\ field_step ex_call (validateObject ex_call 1) 1 object object R VUndefined "items"
     = ([], Ok VUndefined)
  /\ validateObject ex_call 2 object object R = ([], Ok VUndefined).
Proof.
  intros object R. split; [repeat split; reflexivity|].
  destruct (empty_rule_is_array_rule ex_call) as (_ & H2 & H3).
  split.
  - exact (proj2 (proj2 (H2 (validateObject ex_call 1) 1 object object R VUndefined
                           "items" eq_refl eq_refl eq_refl))).
  - exact (H3 1 object object "items").
Defined.

(** * Further properties of the engine *)

Section Further.

Variable call : fname -> jsvalue -> jsvalue -> jsvalue.

(** ** Properties of all the calls of a run *)

Lemma calls_bind_Forall {A B : Type} (P : event -> Prop) (m : M A) (k : A -> M B) :
  Forall P (calls m) ->
  (forall a, result m = Ok a -> Forall P (calls (k a))) ->
  Forall P (calls (bind m k)).
Proof.
  destruct m as [t o]; destruct o as [a| | |]; unfold bind; simpl;
    intros Hm Hk; try assumption.
  apply Forall_app. split; [assumption|]. now apply Hk.
Qed.

Lemma calls_foldM_Forall {A S : Type} (P : event -> Prop)
    (body : S -> A -> M S) xs :
  (forall s x, In x xs -> Forall P (calls (body s x))) ->
  forall s, Forall P (calls (foldM body xs s)).
Proof.
  induction xs as [|x xs IH]; intros Hbody s; simpl.
  - constructor.
  - apply calls_bind_Forall.
    + apply Hbody. now left.
    + intros s' _. apply IH. intros; apply Hbody; now right.
Qed.

Lemma calls_prop_get (P : event -> Prop) v k : Forall P (calls (prop_get v k)).
Proof. destruct v; constructor. Qed.

Lemma calls_length_bound (P : event -> Prop) v : Forall P (calls (length_bound v)).
Proof.
  destruct v; simpl; try constructor.
  destruct (assoc "length" props) as [[]|]; constructor.
Qed.

Section RootThreading.

Variable root : jsvalue.

Let to_root (ev : event) : Prop := root_arg ev = root.

Lemma primitive_slot_root key object violations slot :
  Forall to_root (calls (primitive_slot call key object root violations slot)).
Proof.
  unfold primitive_slot. destruct (negb (truthy slot)); [constructor|].
  destruct (negb (typeof slot =? "function")); [constructor|].
  destruct slot; try constructor.
  apply calls_bind_Forall; [apply calls_prop_get|]. intros value _.
  apply calls_bind_Forall; [repeat constructor|]. intros violation _.
  destruct (truthy violation); constructor.
Qed.

Lemma validatePrimitiveField_root key object rule :
  Forall to_root (calls (validatePrimitiveField call key object root rule)).
Proof.
  unfold validatePrimitiveField.
  apply calls_bind_Forall; [apply calls_length_bound|]. intros len _.
  apply calls_bind_Forall; [|intros; constructor].
  apply calls_foldM_Forall. intros. apply primitive_slot_root.
Qed.

Lemma array_rules_part_root key object arrayRules afe :
  Forall to_root (calls (array_rules_part call key object root arrayRules afe)).
Proof.
  unfold array_rules_part. destruct (truthy arrayRules); [|constructor].
  apply calls_bind_Forall; [apply calls_length_bound|]. intros len _.
  apply calls_foldM_Forall. intros s x _.
  apply calls_bind_Forall; [apply validatePrimitiveField_root|]. intros r _.
  destruct (negb (PR.isValid r)); constructor.
Qed.

Section WithWalker.

Variable rec : jsvalue -> jsvalue -> jsvalue -> M jsvalue.
Hypothesis rec_root : forall object rule, Forall to_root (calls (rec object root rule)).

Lemma validate_element_root er element :
  Forall to_root (calls (validate_element call rec root er element)).
Proof.
  unfold validate_element. destruct er; try apply rec_root.
  apply calls_bind_Forall; [repeat constructor|]. intros; apply rec_root.
Qed.

Lemma array_elements_part_root er value afe :
  Forall to_root (calls (array_elements_part call rec root er value afe)).
Proof.
  unfold array_elements_part. destruct (truthy er && isArray value); [|constructor].
  destruct value; try constructor.
  apply calls_foldM_Forall. intros s x _. unfold element_step.
  apply calls_bind_Forall; [apply validate_element_root|]. intros error _.
  destruct (truthy error); constructor.
Qed.

Lemma validateArrayField_root fuel key object rule :
  Forall to_root (calls (validateArrayField call rec fuel key object root rule)).
Proof.
  revert rule. induction fuel as [|fuel IH]; intros rule; simpl;
    (apply calls_bind_Forall; [apply calls_prop_get|]); intros value _;
    destruct rule;
    first
      [ apply calls_bind_Forall; [apply calls_prop_get|]; intros arrayRules _;
        apply calls_bind_Forall; [apply array_rules_part_root|]; intros afe _;
        apply calls_bind_Forall; [apply calls_prop_get|]; intros er _;
        apply array_elements_part_root
      | apply calls_bind_Forall; [repeat constructor|]; intros arrayRule _; apply IH
      | constructor ].
Qed.

Lemma field_step_root fuel object R errors key :
  Forall to_root (calls (field_step call rec fuel object root R errors key)).
Proof.
  unfold field_step.
  apply calls_bind_Forall; [apply calls_prop_get|]. intros rule _.
  apply calls_bind_Forall; [apply calls_prop_get|]. intros value _.
  destruct (negb (truthy rule)); [constructor|].
  destruct (negb (existsb (String.eqb (typeof rule)) ["array"; "object"; "function"]));
    [constructor|].
  destruct (isArray rule).
  { apply calls_bind_Forall; [apply validatePrimitiveField_root|]. intros r _.
    destruct (negb (PR.isValid r)); constructor. }
  destruct (isArrayValidationRule rule).
  { apply calls_bind_Forall; [apply validateArrayField_root|]. intros r _.
    destruct (truthy (get_prop r "arrayErrors")
              || truthy (get_prop r "arrayElementErrors")); constructor. }
  destruct (typeof value =? "object"); [|constructor].
  apply calls_bind_Forall.
  - unfold validateObjectField.
    apply calls_bind_Forall; [apply calls_prop_get|]. intros v _.
    apply calls_bind_Forall; [apply rec_root|]. intros; constructor.
  - intros r _. destruct (negb (OR.isValid r)); constructor.
Qed.

End WithWalker.

(** X1: every user function called during a validation, at any depth of
    nested objects and array elements, receives as second argument the
    root that was given to [validateObject]. *)
Theorem root_is_threaded fuel object rule :
  Forall (fun ev => root_arg ev = root)
         (calls (validateObject call fuel object root rule)).
Proof.
  revert object rule. induction fuel as [|fuel IH]; intros object rule; simpl.
  - constructor.
  - destruct (negb (truthy rule)); [constructor|].
    apply calls_foldM_Forall. intros s x _.
    apply field_step_root. exact IH.
Qed.

End RootThreading.

(** ** What a field's validation depends on *)

Lemma primitive_slot_value key o1 o2 root acc slot :
  prop_get o1 key = prop_get o2 key ->
  primitive_slot call key o1 root acc slot
  = primitive_slot call key o2 root acc slot.
Proof. intros H. unfold primitive_slot. now rewrite H. Qed.

Lemma validatePrimitiveField_value key o1 o2 root rule :
  prop_get o1 key = prop_get o2 key ->
  validatePrimitiveField call key o1 root rule
  = validatePrimitiveField call key o2 root rule.
Proof.
  intros H. unfold validatePrimitiveField. apply bind_ext. intros len.
  f_equal. apply foldM_ext. intros. now apply primitive_slot_value.
Qed.

Lemma array_rules_part_value key o1 o2 root arrayRules afe :
  prop_get o1 key = prop_get o2 key ->
  array_rules_part call key o1 root arrayRules afe
  = array_rules_part call key o2 root arrayRules afe.
Proof.
  intros H. unfold array_rules_part. destruct (truthy arrayRules); [|reflexivity].
  apply bind_ext. intros len. apply foldM_ext. intros s x _.
  now rewrite (validatePrimitiveField_value key o1 o2 root arrayRules H).
Qed.

Lemma validateArrayField_value rec fuel key o1 o2 root rule :
  prop_get o1 key = prop_get o2 key ->
  validateArrayField call rec fuel key o1 root rule
  = validateArrayField call rec fuel key o2 root rule.
Proof.
  intros H. revert rule. induction fuel as [|fuel IH]; intros rule; simpl;
    rewrite H; apply bind_ext; intros value; destruct rule;
    try reflexivity;
    try (apply bind_ext; intros arrayRules;
         now rewrite (array_rules_part_value key o1 o2 root arrayRules (VObj []) H)).
  apply bind_ext. intros arrayRule. apply IH.
Qed.

Lemma validateObjectField_value rec key o1 o2 root rule :
  prop_get o1 key = prop_get o2 key ->
  validateObjectField rec key o1 root rule = validateObjectField rec key o2 root rule.
Proof. intros H. unfold validateObjectField. now rewrite H. Qed.

(** What a field reports depends on the rule-set only through the rule
    declared under the field's key, and on the object only through the
    value under that key. *)
Lemma field_errors_local rec fuel o1 o2 root R1 R2 key :
  prop_get R1 key = prop_get R2 key ->
  prop_get o1 key = prop_get o2 key ->
  field_errors call rec fuel o1 root R1 key
  = field_errors call rec fuel o2 root R2 key.
Proof.
  intros HR Ho. unfold field_errors. rewrite HR, Ho.
  apply bind_ext. intros rule. apply bind_ext. intros value.
  rewrite (validatePrimitiveField_value key o1 o2 root rule Ho).
  rewrite (validateArrayField_value rec fuel key o1 o2 root rule Ho).
  rewrite (validateObjectField_value rec key o1 o2 root rule Ho).
  reflexivity.
Qed.

Lemma prop_get_effective O1 O2 key :
  get_prop (effective_object O1) key = get_prop (effective_object O2) key ->
  prop_get (effective_object O1) key = prop_get (effective_object O2) key.
Proof.
  intros H.
  rewrite (prop_get_def _ key (effective_object_not_nullish O1)).
  rewrite (prop_get_def _ key (effective_object_not_nullish O2)).
  now rewrite H.
Qed.

Lemma validateObject_agree fuel O1 O2 root R :
  (forall k, In k (own_keys R) ->
             get_prop (effective_object O1) k = get_prop (effective_object O2) k) ->
  validateObject call fuel O1 root R = validateObject call fuel O2 root R.
Proof.
  intros Hagree. destruct fuel as [|fuel]; [reflexivity|].
  destruct (truthy R) eqn:HR.
  - rewrite !(validateObject_unfold call fuel _ root R HR).
    apply foldM_ext. intros errors key Hin.
    rewrite !field_step_factor. f_equal.
    apply field_errors_local; [reflexivity|].
    apply prop_get_effective. now apply Hagree.
  - now rewrite !(validateObject_no_rules call fuel _ root R HR).
Qed.

(** X2: validation reads the object only under the keys the rule-set
    declares.  Two objects that agree under every declared key give the
    same run: the same calls in the same order and the same outcome. *)
Theorem undeclared_fields_are_not_read fuel O1 O2 root R :
  (forall k, In k (own_keys R) ->
             get_prop (effective_object O1) k = get_prop (effective_object O2) k) ->
  validateObject call fuel O1 root R = validateObject call fuel O2 root R.
Proof. apply validateObject_agree. Qed.

(** X3: the entry of the error tree under a key depends only on the rule
    and on the value under that key.  When two validations with the same
    root both return, and their rule-sets declare the same rule under a
    key and their objects hold the same value under it, the two trees
    agree under that key, whatever the other fields are. *)
Theorem field_entries_are_local fuel O1 O2 root R1 R2 t1 t2 tree1 tree2 key :
  validateObject call (S fuel) O1 root R1 = (t1, Ok tree1) ->
  validateObject call (S fuel) O2 root R2 = (t2, Ok tree2) ->
  In key (own_keys R1) ->
  In key (own_keys R2) ->
  get_prop R1 key = get_prop R2 key ->
  get_prop (effective_object O1) key = get_prop (effective_object O2) key ->
  get_prop tree1 key = get_prop tree2 key.
Proof.
  intros H1 H2 Hin1 Hin2 Hrule Hvalue.
  destruct (validateObject_ok_inv call fuel O1 root R1 t1 tree1 H1) as [HR1 Hall1].
  destruct (validateObject_ok_inv call fuel O2 root R2 t2 tree2 H2) as [HR2 Hall2].
  rewrite (validateObject_ok call fuel O1 root R1 HR1 Hall1) in H1.
  rewrite (validateObject_ok call fuel O2 root R2 HR2 Hall2) in H2.
  inversion H1 as [[Ht1 Htree1]]. inversion H2 as [[Ht2 Htree2]].
  assert (Hund : tree_shape VUndefined) by (now left).
  rewrite !(get_prop_assemble _ _ VUndefined key Hund).
  rewrite (proj2 (string_mem_In key _) Hin1), (proj2 (string_mem_In key _) Hin2).
  rewrite (field_errors_local (validateObject call fuel) fuel
             (effective_object O1) (effective_object O2) root R1 R2 key).
  - reflexivity.
  - rewrite (prop_get_def R1 key (truthy_not_nullish R1 HR1)).
    rewrite (prop_get_def R2 key (truthy_not_nullish R2 HR2)).
    now rewrite Hrule.
  - now apply prop_get_effective.
Qed.

(** ** Termination *)

Lemma bind_fuel {A B : Type} (m : M A) (k : A -> M B) :
  result m <> OutOfFuel ->
  (forall a, result m = Ok a -> result (k a) <> OutOfFuel) ->
  result (bind m k) <> OutOfFuel.
Proof.
  destruct m as [t o]; destruct o as [a| | |]; unfold bind; simpl;
    intros Hm Hk; try discriminate; try (exfalso; now apply Hm).
  now apply Hk.
Qed.

Lemma foldM_fuel {A S : Type} (body : S -> A -> M S) xs :
  (forall s x, In x xs -> result (body s x) <> OutOfFuel) ->
  forall s, result (foldM body xs s) <> OutOfFuel.
Proof.
  induction xs as [|x xs IH]; intros Hbody s; simpl.
  - discriminate.
  - apply bind_fuel.
    + apply Hbody. now left.
    + intros s' _. apply IH. intros; apply Hbody; now right.
Qed.

Lemma prop_get_fuel v k : result (prop_get v k) <> OutOfFuel.
Proof. destruct v; discriminate. Qed.

Lemma prop_get_ok v k a : result (prop_get v k) = Ok a -> a = get_prop v k.
Proof. destruct v; simpl; intros H; inversion H; reflexivity. Qed.

Lemma length_bound_fuel v : result (length_bound v) <> OutOfFuel.
Proof.
  destruct v; simpl; try discriminate.
  destruct (assoc "length" props) as [[]|]; discriminate.
Qed.

Lemma validatePrimitiveField_fuel key object root rule :
  result (validatePrimitiveField call key object root rule) <> OutOfFuel.
Proof.
  unfold validatePrimitiveField.
  apply bind_fuel; [apply length_bound_fuel|]. intros len _.
  apply bind_fuel; [|intros; discriminate].
  apply foldM_fuel. intros acc index _. unfold primitive_slot.
  destruct (negb (truthy (get_index rule index))); [discriminate|].
  destruct (negb (typeof (get_index rule index) =? "function")); [discriminate|].
  destruct (get_index rule index); try discriminate.
  apply bind_fuel; [apply prop_get_fuel|]. intros value _.
  apply bind_fuel; [discriminate|]. intros violation _.
  destruct (truthy violation); discriminate.
Qed.

Lemma array_rules_part_fuel key object root arrayRules afe :
  result (array_rules_part call key object root arrayRules afe) <> OutOfFuel.
Proof.
  unfold array_rules_part. destruct (truthy arrayRules); [|discriminate].
  apply bind_fuel; [apply length_bound_fuel|]. intros len _.
  apply foldM_fuel. intros s x _.
  apply bind_fuel; [apply validatePrimitiveField_fuel|]. intros r _.
  destruct (negb (PR.isValid r)); discriminate.
Qed.

Lemma indexed_from_snd_In {A : Type} (xs : list A) i p :
  In p (indexed_from i xs) -> In (snd p) xs.
Proof.
  revert i; induction xs as [|x xs IH]; intros i; simpl; [tauto|].
  intros [<- | H]; [now left|]. right. eapply IH; eassumption.
Qed.

(** The same, for any walker that does not run out of fuel on the
    components it is given. *)
Lemma array_elements_part_fuel rec root er value afe :
  (forall elems e rule, value = VArr elems -> In e elems ->
                        result (rec e root rule) <> OutOfFuel) ->
  result (array_elements_part call rec root er value afe) <> OutOfFuel.
Proof.
  intros Hrec. unfold array_elements_part.
  destruct (truthy er && isArray value); [|discriminate].
  destruct value; try discriminate.
  apply foldM_fuel. intros s ie Hin. unfold element_step.
  apply indexed_from_snd_In in Hin.
  apply bind_fuel.
  - unfold validate_element. destruct er; now apply (Hrec elems).
  - intros error _. destruct (truthy error); discriminate.
Qed.

Lemma validateArrayField_static_fuel rec fuel key object root rule :
  isFunction rule = false ->
  (forall elems e r, get_prop object key = VArr elems -> In e elems ->
                     result (rec e root r) <> OutOfFuel) ->
  result (validateArrayField call rec fuel key object root rule) <> OutOfFuel.
Proof.
  intros Hfun Hrec.
  assert (Hbody : forall value, value = get_prop object key ->
            result (arrayRules <- prop_get rule "arrayRules" ;;
                    afe <- array_rules_part call key object root arrayRules (VObj []) ;;
                    er <- prop_get rule "arrayElementRule" ;;
                    array_elements_part call rec root er value afe) <> OutOfFuel).
  { intros value ->.
    apply bind_fuel; [apply prop_get_fuel|]. intros arrayRules _.
    apply bind_fuel; [apply array_rules_part_fuel|]. intros afe _.
    apply bind_fuel; [apply prop_get_fuel|]. intros er _.
    now apply array_elements_part_fuel. }
  destruct fuel; simpl; (apply bind_fuel; [apply prop_get_fuel|]);
    intros value Hvalue; apply prop_get_ok in Hvalue;
    destruct rule; try discriminate; now apply Hbody.
Qed.

Section NoBuilderChain.

(** No user function returns a function: a builder resolves to a rule. *)
Hypothesis no_builder_chain : forall f v root, isFunction (call f v root) = false.

Lemma validateArrayField_fuel rec fuel key object root rule :
  1 <= fuel ->
  (forall elems e r, get_prop object key = VArr elems -> In e elems ->
                     result (rec e root r) <> OutOfFuel) ->
  result (validateArrayField call rec fuel key object root rule) <> OutOfFuel.
Proof.
  intros Hfuel Hrec. destruct (isFunction rule) eqn:Hfun.
  - destruct rule; try discriminate. destruct fuel as [|fuel]; [lia|]. simpl.
    apply bind_fuel; [apply prop_get_fuel|]. intros value _.
    apply bind_fuel; [discriminate|]. intros arrayRule HarrayRule.
    apply validateArrayField_static_fuel; [|exact Hrec].
    simpl in HarrayRule. inversion HarrayRule. apply no_builder_chain.
  - now apply validateArrayField_static_fuel.
Qed.

Lemma depth_elem elems x : In x elems -> depth x < depth (VArr elems).
Proof.
  intros H. induction elems as [|y ys IH]; [destruct H|].
  destruct H as [-> | H]; simpl in *; [lia|]. specialize (IH H). lia.
Qed.

Lemma depth_prop props k x : assoc k props = Some x -> depth x < depth (VObj props).
Proof.
  induction props as [|[k0 v0] rest IH]; simpl; [discriminate|].
  destruct (k0 =? k).
  - intros H; inversion H; subst. lia.
  - intros H. specialize (IH H). simpl in IH. lia.
Qed.

Lemma assoc_indexed_In (xs : list jsvalue) i k x :
  assoc k (map (fun p => (index_key (fst p), snd p)) (indexed_from i xs)) = Some x ->
  In x xs.
Proof.
  revert i; induction xs as [|y ys IH]; intros i; simpl; [discriminate|].
  destruct (index_key i =? k).
  - intros H; inversion H. now left.
  - intros H. right. eapply IH; eassumption.
Qed.

Lemma chars_typeof s x : In x (chars s) -> typeof x = "string".
Proof.
  induction s as [|c s IH]; simpl; [tauto|].
  intros [<- | H]; [reflexivity|now apply IH].
Qed.

(** An object-typed value read from a value is one of its components. *)
Lemma get_prop_depth v k :
  typeof (get_prop v k) = "object" -> depth (get_prop v k) < depth v.
Proof.
  unfold get_prop.
  destruct (assoc k (own_props v)) as [x|] eqn:Hassoc.
  - destruct v; simpl in Hassoc; try discriminate; intros Ht.
    + apply assoc_indexed_In in Hassoc. apply chars_typeof in Hassoc.
      rewrite Hassoc in Ht. discriminate.
    + apply assoc_indexed_In in Hassoc. now apply depth_elem.
    + now apply (depth_prop props k).
  - destruct (k =? "length"); [|discriminate].
    destruct v; discriminate.
Qed.

Lemma get_prop_effective_depth O k :
  typeof (get_prop (effective_object O) k) = "object" ->
  depth (get_prop (effective_object O) k) < depth O.
Proof.
  unfold effective_object. destruct (truthy O); simpl negb; cbv iota.
  - apply get_prop_depth.
  - rewrite get_prop_obj. simpl. discriminate.
Qed.

Lemma validateObject_fuel fuel O root R :
  depth O + 2 <= fuel ->
  result (validateObject call fuel O root R) <> OutOfFuel.
Proof.
  revert O R. induction fuel as [|fuel IH]; intros O R Hfuel; [lia|].
  destruct (truthy R) eqn:HR;
    [|rewrite (validateObject_no_rules call fuel O root R HR); discriminate].
  rewrite (validateObject_unfold call fuel O root R HR).
  apply foldM_fuel. intros errors key _. unfold field_step.
  apply bind_fuel; [apply prop_get_fuel|]. intros rule _.
  apply bind_fuel; [apply prop_get_fuel|]. intros value Hvalue.
  apply prop_get_ok in Hvalue.
  destruct (negb (truthy rule)); [discriminate|].
  destruct (negb (existsb (String.eqb (typeof rule)) ["array"; "object"; "function"]));
    [discriminate|].
  destruct (isArray rule).
  { apply bind_fuel; [apply validatePrimitiveField_fuel|]. intros r _.
    destruct (negb (PR.isValid r)); discriminate. }
  destruct (isArrayValidationRule rule).
  { apply bind_fuel.
    - apply validateArrayField_fuel; [lia|].
      intros elems e r Helems Hin. apply IH.
      assert (Hd := get_prop_effective_depth O key).
      rewrite Helems in Hd. specialize (Hd eq_refl).
      assert (He := depth_elem elems e Hin). lia.
    - intros r _.
      destruct (truthy (get_prop r "arrayErrors")
                || truthy (get_prop r "arrayElementErrors")); discriminate. }
  destruct (typeof value =? "object") eqn:Hobj; [|discriminate].
  apply String.eqb_eq in Hobj. subst value.
  apply bind_fuel.
  - unfold validateObjectField.
    apply bind_fuel; [apply prop_get_fuel|]. intros v Hv.
    apply prop_get_ok in Hv. subst v.
    apply bind_fuel; [|intros; discriminate].
    apply IH. assert (Hd := get_prop_effective_depth O key Hobj). lia.
  - intros r _. destruct (negb (OR.isValid r)); discriminate.
Qed.

End NoBuilderChain.

(** *** Staying inside the modelled fragment *)

Lemma bind_modelled {A B : Type} (m : M A) (k : A -> M B) :
  result m <> Unmodelled ->
  (forall a, result m = Ok a -> result (k a) <> Unmodelled) ->
  result (bind m k) <> Unmodelled.
Proof.
  destruct m as [t o]; destruct o as [a| | |]; unfold bind; simpl;
    intros Hm Hk; try discriminate; try (exfalso; now apply Hm).
  now apply Hk.
Qed.

Lemma foldM_modelled {A S : Type} (body : S -> A -> M S) xs :
  (forall s x, In x xs -> result (body s x) <> Unmodelled) ->
  forall s, result (foldM body xs s) <> Unmodelled.
Proof.
  induction xs as [|x xs IH]; intros Hbody s; simpl.
  - discriminate.
  - apply bind_modelled.
    + apply Hbody. now left.
    + intros s' _. apply IH. intros; apply Hbody; now right.
Qed.

Lemma prop_get_modelled v k : result (prop_get v k) <> Unmodelled.
Proof. destruct v; discriminate. Qed.

Lemma length_bound_modelled v :
  length_modelled v = true -> result (length_bound v) <> Unmodelled.
Proof.
  unfold length_modelled. destruct (result (length_bound v)); discriminate.
Qed.

Lemma validatePrimitiveField_modelled key object root rule :
  length_modelled rule = true ->
  result (validatePrimitiveField call key object root rule) <> Unmodelled.
Proof.
  intros Hrule. unfold validatePrimitiveField.
  apply bind_modelled; [now apply length_bound_modelled|]. intros len _.
  apply bind_modelled; [|intros; discriminate].
  apply foldM_modelled. intros acc index _. unfold primitive_slot.
  destruct (negb (truthy (get_index rule index))); [discriminate|].
  destruct (negb (typeof (get_index rule index) =? "function")); [discriminate|].
  destruct (get_index rule index); try discriminate.
  apply bind_modelled; [apply prop_get_modelled|]. intros value _.
  apply bind_modelled; [discriminate|]. intros violation _.
  destruct (truthy violation); discriminate.
Qed.

Lemma array_rules_part_modelled key object root arrayRules afe :
  length_modelled arrayRules = true ->
  result (array_rules_part call key object root arrayRules afe) <> Unmodelled.
Proof.
  intros Hrules. unfold array_rules_part.
  destruct (truthy arrayRules); [|discriminate].
  apply bind_modelled; [now apply length_bound_modelled|]. intros len _.
  apply foldM_modelled. intros s x _.
  apply bind_modelled; [now apply validatePrimitiveField_modelled|]. intros r _.
  destruct (negb (PR.isValid r)); discriminate.
Qed.

Lemma modelled_rule_elem elems x :
  modelled_rule (VArr elems) = true -> In x elems -> modelled_rule x = true.
Proof.
  intros H Hin. induction elems as [|y ys IH]; [destruct Hin|].
  simpl in H. apply andb_prop in H as [Hy Hys].
  destruct Hin as [-> | Hin]; [exact Hy|]. now apply IH.
Qed.

Lemma modelled_rule_prop props k x :
  modelled_rule (VObj props) = true -> assoc k props = Some x ->
  modelled_rule x = true.
Proof.
  intros H Hassoc. simpl in H. apply andb_prop in H as [_ H].
  induction props as [|[k0 v0] rest IH]; [discriminate|].
  apply andb_prop in H as [H0 Hrest]. simpl in Hassoc.
  destruct (k0 =? k).
  - inversion Hassoc; subst. exact H0.
  - now apply IH.
Qed.

Lemma string_value_modelled x :
  typeof x = "string" -> modelled_rule x = true /\ length_modelled x = true.
Proof. destruct x; simpl; try discriminate. split; reflexivity. Qed.

(** Reading a property of a covered value gives a covered value. *)
Lemma modelled_rule_get_prop v k :
  modelled_rule v = true -> modelled_rule (get_prop v k) = true.
Proof.
  intros Hv. unfold get_prop.
  destruct (assoc k (own_props v)) as [x|] eqn:Hassoc.
  - destruct v; simpl in Hassoc; try discriminate.
    + apply assoc_indexed_In in Hassoc. apply chars_typeof in Hassoc.
      now apply string_value_modelled.
    + apply assoc_indexed_In in Hassoc. now apply (modelled_rule_elem elems).
    + now apply (modelled_rule_prop props k).
  - destruct (k =? "length"); [|reflexivity]. now destruct v.
Qed.

Lemma modelled_rule_arrayRules rule :
  modelled_rule rule = true ->
  length_modelled (get_prop rule "arrayRules") = true.
Proof.
  intros Hrule. destruct rule; try reflexivity.
  - unfold get_prop. simpl own_props.
    destruct (assoc "arrayRules" _) as [x|] eqn:Hassoc; [|reflexivity].
    apply assoc_indexed_In in Hassoc. apply chars_typeof in Hassoc.
    now apply string_value_modelled.
  - now rewrite (proj1 (array_has_no_array_rule_keys elems)).
  - rewrite get_prop_obj. simpl in Hrule. apply andb_prop in Hrule as [H _].
    now destruct (assoc "arrayRules" props).
Qed.

Section Modelled.

(** What user functions return is covered. *)
Hypothesis call_modelled : forall f v root, modelled_rule (call f v root) = true.

Section WithWalker.

Variable rec : jsvalue -> jsvalue -> jsvalue -> M jsvalue.
Hypothesis rec_modelled :
  forall object root rule,
    modelled_rule rule = true -> result (rec object root rule) <> Unmodelled.

Lemma array_elements_part_modelled root er value afe :
  modelled_rule er = true ->
  result (array_elements_part call rec root er value afe) <> Unmodelled.
Proof.
  intros Her. unfold array_elements_part.
  destruct (truthy er && isArray value); [|discriminate].
  destruct value; try discriminate.
  apply foldM_modelled. intros s ie _. unfold element_step.
  apply bind_modelled.
  - unfold validate_element.
    destruct er; apply rec_modelled; first [exact Her | apply call_modelled].
  - intros error _. destruct (truthy error); discriminate.
Qed.

Lemma validateArrayField_modelled fuel key object root rule :
  modelled_rule rule = true ->
  result (validateArrayField call rec fuel key object root rule) <> Unmodelled.
Proof.
  assert (Hstatic : forall rule value,
            modelled_rule rule = true ->
            result (arrayRules <- prop_get rule "arrayRules" ;;
                    afe <- array_rules_part call key object root arrayRules (VObj []) ;;
                    er <- prop_get rule "arrayElementRule" ;;
                    array_elements_part call rec root er value afe) <> Unmodelled).
  { intros rule0 value Hrule0.
    apply bind_modelled; [apply prop_get_modelled|]. intros arrayRules Hr.
    apply prop_get_ok in Hr. subst arrayRules.
    apply bind_modelled;
      [apply array_rules_part_modelled; now apply modelled_rule_arrayRules|].
    intros afe _.
    apply bind_modelled; [apply prop_get_modelled|]. intros er Her.
    apply prop_get_ok in Her. subst er.
    apply array_elements_part_modelled. now apply modelled_rule_get_prop. }
  revert rule. induction fuel as [|fuel IH]; intros rule Hrule; simpl;
    (apply bind_modelled; [apply prop_get_modelled|]); intros value _;
    destruct rule; try (now apply Hstatic); try discriminate.
  apply bind_modelled; [discriminate|]. intros arrayRule Ha.
  apply IH. simpl in Ha. inversion Ha. apply call_modelled.
Qed.

Lemma field_step_modelled fuel object root R errors key :
  modelled_rule R = true ->
  result (field_step call rec fuel object root R errors key) <> Unmodelled.
Proof.
  intros HR. unfold field_step.
  apply bind_modelled; [apply prop_get_modelled|]. intros rule Hrule.
  apply prop_get_ok in Hrule.
  assert (Hm : modelled_rule rule = true)
    by (subst rule; now apply modelled_rule_get_prop).
  apply bind_modelled; [apply prop_get_modelled|]. intros value _.
  destruct (negb (truthy rule)); [discriminate|].
  destruct (negb (existsb (String.eqb (typeof rule)) ["array"; "object"; "function"]));
    [discriminate|].
  destruct (isArray rule) eqn:Harr.
  { apply bind_modelled.
    - apply validatePrimitiveField_modelled. destruct rule; try discriminate.
      reflexivity.
    - intros r _. destruct (negb (PR.isValid r)); discriminate. }
  destruct (isArrayValidationRule rule).
  { apply bind_modelled; [now apply validateArrayField_modelled|]. intros r _.
    destruct (truthy (get_prop r "arrayErrors")
              || truthy (get_prop r "arrayElementErrors")); discriminate. }
  destruct (typeof value =? "object"); [|discriminate].
  apply bind_modelled.
  - unfold validateObjectField.
    apply bind_modelled; [apply prop_get_modelled|]. intros v _.
    apply bind_modelled; [now apply rec_modelled|]. intros; discriminate.
  - intros r _. destruct (negb (OR.isValid r)); discriminate.
Qed.

End WithWalker.

Lemma validateObject_modelled fuel O root R :
  modelled_rule R = true ->
  result (validateObject call fuel O root R) <> Unmodelled.
Proof.
  revert O root R. induction fuel as [|fuel IH]; intros O root R HR; simpl.
  - discriminate.
  - destruct (negb (truthy R)); [discriminate|].
    apply foldM_modelled. intros errors key _.
    apply field_step_modelled; [|exact HR].
    intros object root' rule Hrule. now apply IH.
Qed.

End Modelled.


(** ** A builder that resolves to itself *)

Lemma validateArrayField_self_builder rec key object root f :
  nullish object = false ->
  call f (get_prop object key) root = VFun f ->
  forall fuel,
    validateArrayField call rec fuel key object root (VFun f)
    = (repeat (Call f (get_prop object key) root) fuel, OutOfFuel).
Proof.
  intros Hobj Hself. induction fuel as [|fuel IH].
  - simpl. now rewrite (prop_get_def object key Hobj), bind_ret_l.
  - rewrite (validateArrayField_builder call rec fuel key object root f Hobj).
    unfold invoke. rewrite bind_ok, Hself, IH. reflexivity.
Qed.

Ltac open_field_step HR Hobj :=
  unfold field_step;
  rewrite (prop_get_def _ _ HR), bind_ret_l;
  rewrite (prop_get_def _ _ Hobj), bind_ret_l.

(** X5: a builder that returns itself is resolved again and again: when
    the first declared field has such a rule, no recursion budget lets
    [validateObject] return. *)
Theorem self_resolving_builder_never_returns O root R key rest f :
  truthy R = true ->
  own_keys R = key :: rest ->
  get_prop R key = VFun f ->
  call f (get_prop (effective_object O) key) root = VFun f ->
  forall fuel, result (validateObject call fuel O root R) = OutOfFuel.
Proof.
  intros HR Hkeys Hrule Hself fuel. destruct fuel as [|fuel]; [reflexivity|].
  rewrite (validateObject_unfold call fuel O root R HR), Hkeys. simpl foldM.
  open_field_step (truthy_not_nullish R HR) (effective_object_not_nullish O).
  rewrite Hrule. simpl truthy. simpl negb. cbv iota. simpl typeof. simpl existsb.
  cbv iota. simpl isArray. cbv iota.
  change (isArrayValidationRule (VFun f)) with true. cbv iota.
  rewrite (validateArrayField_self_builder (validateObject call fuel) key
             (effective_object O) root f (effective_object_not_nullish O) Hself).
  reflexivity.
Qed.

(** ** Degenerate rule-sets and objects *)

(** X12: what [validateObject] does with a rule-set that is not an object
    of rules.  A truthy rule-set without own keys (a number, [true], a
    function, [{}], [[]]) makes it return nothing without a call; a
    non-empty string makes it throw on the first character. *)
Theorem degenerate_rule_sets fuel O root :
  (forall R, truthy R = true -> own_keys R = [] ->
             validateObject call (S fuel) O root R = ([], Ok VUndefined))
  /\ (forall c s,
        validateObject call (S fuel) O root (VStr (String c s))
        = ([], Throw (Error "string is not a valid rule."))).
Proof.
  split.
  - intros R HR Hkeys.
    rewrite (validateObject_unfold call fuel O root R HR), Hkeys. reflexivity.
  - intros c s.
    rewrite (validateObject_unfold call fuel O root (VStr (String c s)) eq_refl).
    unfold own_keys. simpl own_props. simpl map. simpl foldM.
    unfold field_step at 1.
    rewrite (prop_get_def _ _ (effective_object_not_nullish O)).
    reflexivity.
Qed.

(** X13: [assignErrorsIfAny] on an error tree: the key assigned reads back
    the assigned value, every other key reads as before, the keys are the
    former keys and the assigned one, and the tree is an object with at
    least one key afterwards. *)
Theorem assign_then_lookup errors key violations :
  tree_shape errors ->
  get_prop (assignErrorsIfAny errors key violations) key = violations
  /\ (forall k, k <> key ->
                get_prop (assignErrorsIfAny errors key violations) k
                = get_prop errors k)
  /\ (forall k, In k (own_keys (assignErrorsIfAny errors key violations))
                <-> In k (own_keys errors) \/ k = key)
  /\ tree_shape (assignErrorsIfAny errors key violations).
Proof.
  intros Hs.
  pose proof (get_prop_store errors key (Some violations)) as Hget.
  pose proof (keys_store errors key (Some violations)) as Hkeys.
  pose proof (tree_shape_store errors key (Some violations) Hs) as Hshape.
  simpl in *. split; [|split; [|split]].
  - rewrite (Hget key Hs). now rewrite String.eqb_refl.
  - intros k Hk. rewrite (Hget k Hs).
    destruct (key =? k) eqn:E; [|reflexivity].
    apply String.eqb_eq in E. congruence.
  - intros k. rewrite (Hkeys k Hs). split.
    + intros [H | [H _]]; auto.
    + intros [H | H]; [now left|]. right. split; [exact H|discriminate].
  - exact Hshape.
Qed.

(** X14: an object under validation that is falsy, a number or a boolean
    has no field to read: it is validated exactly as the empty object. *)
Theorem primitive_object_is_empty_object fuel root R :
  (forall O, truthy O = false ->
             validateObject call fuel O root R
             = validateObject call fuel (VObj []) root R)
  /\ (forall n, validateObject call fuel (VNum n) root R
                = validateObject call fuel (VObj []) root R)
  /\ (forall b, validateObject call fuel (VBool b) root R
                = validateObject call fuel (VObj []) root R).
Proof.
  assert (Hleaf : forall O,
             (forall k, get_prop (effective_object O) k = VUndefined) ->
             validateObject call fuel O root R
             = validateObject call fuel (VObj []) root R).
  { intros O H. apply validateObject_agree. intros k _.
    rewrite H. change (effective_object (VObj [])) with (VObj []).
    now rewrite get_prop_obj. }
  split; [|split].
  - intros O HO. apply Hleaf. intros k. unfold effective_object. rewrite HO.
    simpl. now rewrite get_prop_obj.
  - intros n. apply Hleaf. intros k. unfold effective_object.
    destruct (truthy (VNum n)); simpl negb; cbv iota;
      unfold get_prop; simpl; now destruct (k =? "length").
  - intros b. apply Hleaf. intros k. unfold effective_object.
    destruct (truthy (VBool b)); simpl negb; cbv iota;
      unfold get_prop; simpl; now destruct (k =? "length").
Qed.

(** X9: dispatch under a nested rule-set.  When the field value is
    object-typed (an object, an array or null) the walker is entered on it
    with the nested rule-set and the same root, and its error tree, when
    there is one, is stored under the key.  When the value has any other
    type the field is not validated: no call, nothing stored. *)
Theorem nested_rule_dispatch rec fuel object root R errors key props :
  nullish R = false ->
  nullish object = false ->
  get_prop R key = VObj props ->
  isArrayValidationRule (VObj props) = false ->
  (typeof (get_prop object key) = "object" ->
   field_step call rec fuel object root R errors key
   = bind (rec (get_prop object key) root (VObj props))
          (fun error =>
             ret (if truthy error then assignErrorsIfAny errors key error
                  else errors)))
  /\ (typeof (get_prop object key) <> "object" ->
      field_step call rec fuel object root R errors key = ([], Ok errors)).
Proof.
  intros HR Hobj Hrule Harr. split; intros Hval.
  - open_field_step HR Hobj. rewrite Hrule, Hval.
    simpl truthy. simpl negb. cbv iota. simpl typeof. simpl existsb. cbv iota.
    simpl isArray. cbv iota. rewrite Harr. simpl String.eqb. cbv iota.
    unfold validateObjectField.
    rewrite (prop_get_def object key Hobj), bind_ret_l.
    rewrite !bind_assoc. apply bind_ext. intros error.
    rewrite bind_ret_l. simpl. now destruct (truthy error).
  - open_field_step HR Hobj. rewrite Hrule.
    simpl truthy. simpl negb. cbv iota. simpl typeof. simpl existsb. cbv iota.
    simpl isArray. cbv iota. rewrite Harr.
    destruct (typeof (get_prop object key) =? "object") eqn:E; [|reflexivity].
    apply String.eqb_eq in E. contradiction.
Qed.

(** ** The result of the array field validator *)

Lemma validatePrimitiveField_valid key object root rule t r :
  validatePrimitiveField call key object root rule = (t, Ok r) ->
  PR.isValid r = Nat.eqb (List.length (PR.errors r)) 0.
Proof.
  unfold validatePrimitiveField. intros H.
  apply bind_ok_inv in H as (t1 & len & t2 & _ & H & _).
  apply bind_ok_inv in H as (t3 & violations & t4 & _ & H & _).
  inversion H. reflexivity.
Qed.

Lemma array_rules_part_nonempty key object root arrayRules t afe :
  array_rules_part call key object root arrayRules (VObj []) = (t, Ok afe) ->
  afe = VObj [] \/ exists v vs, afe = VObj [("arrayErrors", VArr (v :: vs))].
Proof.
  unfold array_rules_part. destruct (truthy arrayRules).
  - intros H. apply bind_ok_inv in H as (t1 & len & t2 & _ & H & _).
    refine (foldM_invariant
              (fun afe => afe = VObj []
                          \/ exists v vs, afe = VObj [("arrayErrors", VArr (v :: vs))])
              _ _ _ _ _ _ H _); [|now left].
    intros s x t' s' Hb Hs.
    apply bind_ok_inv in Hb as (t3 & r & t4 & Hr & Hb & _).
    apply validatePrimitiveField_valid in Hr.
    destruct (PR.isValid r) eqn:Hvalid; simpl in Hb; inversion Hb; subst;
      [assumption|].
    right. destruct (PR.errors r) as [|v vs]; [discriminate|].
    exists v, vs. destruct Hs as [-> | (v' & vs' & ->)]; reflexivity.
  - intros H. inversion H. now left.
Qed.

Lemma array_elements_part_entries rec root er value props t r :
  assoc "arrayElementErrors" props = None ->
  array_elements_part call rec root er value (VObj props) = (t, Ok r) ->
  exists entries, r = elements_object props entries.
Proof.
  intros Hprops. unfold array_elements_part.
  destruct (truthy er && isArray value);
    [|intros H; inversion H; now exists []].
  destruct value; try (intros H; inversion H; now exists []).
  intros H.
  refine (foldM_invariant (fun afe => exists entries, afe = elements_object props entries)
            _ _ _ _ _ _ H _); [|now exists []].
  intros s ie t' s' Hb [entries ->].
  pose proof Hb as Hb'. unfold element_step in Hb'.
  apply bind_ok_inv in Hb' as (t1 & e & t2 & He & _ & _).
  assert (Hres : result (validate_element call rec root er (snd ie)) = Ok e)
    by (now rewrite He).
  rewrite (element_step_ok call rec root er props entries ie e Hprops Hres) in Hb.
  inversion Hb. eauto.
Qed.

Lemma elements_object_shape rules_part entries :
  (rules_part = []
   \/ exists v vs, rules_part = [("arrayErrors", VArr (v :: vs))]) ->
  array_errors_shape (elements_object rules_part entries).
Proof.
  intros Hrules. unfold elements_object. destruct entries as [|e es].
  - exists rules_part, []. rewrite app_nil_r. auto.
  - exists rules_part, [("arrayElementErrors", VArr (e :: es))].
    split; [reflexivity|]. split; [assumption|]. right. eauto.
Qed.

Lemma static_array_field_shape rec key object root rule value t r :
  bind (prop_get rule "arrayRules")
    (fun arrayRules =>
       bind (array_rules_part call key object root arrayRules (VObj []))
         (fun afe =>
            bind (prop_get rule "arrayElementRule")
              (fun er => array_elements_part call rec root er value afe)))
  = (t, Ok r) ->
  array_errors_shape r.
Proof.
  intros H.
  apply bind_ok_inv in H as (t1 & arrayRules & t2 & _ & H & _).
  apply bind_ok_inv in H as (t3 & afe & t4 & Hafe & H & _).
  apply bind_ok_inv in H as (t5 & er & t6 & _ & H & _).
  destruct (array_rules_part_nonempty _ _ _ _ _ _ Hafe) as [-> | (v & vs & ->)].
  - destruct (array_elements_part_entries rec root er value [] _ _ eq_refl H)
      as [entries ->].
    apply elements_object_shape. now left.
  - destruct (array_elements_part_entries rec root er value
                [("arrayErrors", VArr (v :: vs))] _ _ eq_refl H)
      as [entries ->].
    apply elements_object_shape. right. eauto.
Qed.

(** X6: whatever the rule (static, or resolved through builders), a result
    of [validateArrayField] is an object whose keys are, in this order, an
    optional [arrayErrors] and an optional [arrayElementErrors], each
    holding a non-empty array when present. *)
Theorem array_field_result_shape rec fuel key object root rule t r :
  validateArrayField call rec fuel key object root rule = (t, Ok r) ->
  array_errors_shape r.
Proof.
  revert rule t. induction fuel as [|fuel IH]; intros rule t H; simpl in H;
    apply bind_ok_inv in H as (t1 & value & t2 & _ & H & _);
    destruct rule;
    try (now apply (static_array_field_shape rec key object root _ value _ _ H)).
  - discriminate.
  - apply bind_ok_inv in H as (t3 & arrayRule & t4 & _ & H & _).
    now apply (IH arrayRule t4).
Qed.

Lemma array_errors_object_slots slots v root :
  match slots with
  | [] => VObj []
  | _ :: _ => array_errors_object (rule_violations call slots v root)
  end
  = array_errors_object (rule_violations call slots v root).
Proof. now destruct slots. Qed.

(** X7: the two parts of an array rule are independent and run in
    sequence.  On an array value, with accepted [arrayRules] slots and
    element validations that return, the whole-array rules are run on the
    array first, then the elements in index order; [arrayErrors] is
    determined by the whole-array rules alone, [arrayElementErrors] by the
    element rule alone, and each is present exactly when it is non-empty. *)
Theorem array_parts_are_independent rec fuel key object root rule slots elems :
  nullish object = false ->
  nullish rule = false ->
  isFunction rule = false ->
  get_prop rule "arrayRules" = VArr slots ->
  forallb slot_ok slots = true ->
  get_prop object key = VArr elems ->
  truthy (get_prop rule "arrayElementRule") = true ->
  forallb (fun e => is_ok (validate_element call rec root
                             (get_prop rule "arrayElementRule") e)) elems = true ->
  let er := get_prop rule "arrayElementRule" in
  let violations := rule_violations call slots (VArr elems) root in
  let entries := failing_entries call rec root er elems in
  validateArrayField call rec fuel key object root rule
  = (List.concat (repeat (rule_calls slots (VArr elems) root) (List.length slots))
       ++ List.concat (map (fun e => calls (validate_element call rec root er e)) elems),
     Ok (VObj (match violations with
               | [] => []
               | _ :: _ => [("arrayErrors", VArr violations)]
               end
               ++ match entries with
                  | [] => []
                  | _ :: _ => [("arrayElementErrors", VArr entries)]
                  end))).
Proof.
  intros Hobj Hrule Hfun Hslots Hok Hval Her Hall er violations entries.
  rewrite (validateArrayField_static call rec fuel key object root rule Hobj Hrule Hfun).
  rewrite Hslots, (array_rules_part_ok call key object root slots Hobj Hok).
  rewrite array_errors_object_slots, bind_ok, Hval.
  fold violations. fold er. unfold array_elements_part.
  assert (Her' : truthy er = true) by exact Her.
  rewrite Her'. simpl andb. cbv iota.
  assert (Hloop : forall props,
             assoc "arrayElementErrors" props = None ->
             foldM (element_step call rec root er) (indexed elems) (VObj props)
             = (List.concat (map (fun e => calls (validate_element call rec root er e))
                               elems),
                Ok (elements_object props entries))).
  { intros props Hprops.
    exact (element_loop call rec root er props Hprops elems 0 [] Hall). }
  unfold array_errors_object. subst violations.
  destruct (rule_violations call slots (VArr elems) root) as [|v vs];
    rewrite Hloop by reflexivity; simpl;
    unfold elements_object; now destruct entries.
Qed.

(** X10: an element rule that is a function is called once per element,
    on [(element, root)], in index order, for passing and failing elements
    alike; the calls of each element's validation follow its call. *)
Theorem element_builder_called_per_element rec fuel key object root rule g elems
    t1 afe1 :
  nullish object = false ->
  nullish rule = false ->
  isFunction rule = false ->
  get_prop object key = VArr elems ->
  get_prop rule "arrayElementRule" = VFun g ->
  array_rules_part call key object root (get_prop rule "arrayRules") (VObj [])
    = (t1, Ok afe1) ->
  forallb (fun e => is_ok (rec e root (call g e root))) elems = true ->
  calls (validateArrayField call rec fuel key object root rule)
  = t1 ++ List.concat
            (map (fun e => Call g e root :: calls (rec e root (call g e root))) elems).
Proof.
  intros Hobj Hrule Hfun Hval Her Hrules Hall.
  rewrite (validateArrayField_static call rec fuel key object root rule Hobj Hrule Hfun).
  rewrite Hrules, bind_ok, Hval, Her. unfold array_elements_part.
  simpl truthy. simpl andb. cbv iota. simpl calls at 1. f_equal.
  assert (Hall' : forallb (fun e => is_ok (validate_element call rec root (VFun g) e))
                    elems = true) by exact Hall.
  destruct (array_rules_part_nonempty _ _ _ _ _ _ Hrules) as [-> | (v & vs & ->)].
  - exact (f_equal fst (element_loop call rec root (VFun g) [] eq_refl elems 0 [] Hall')).
  - exact (f_equal fst (element_loop call rec root (VFun g)
                          [("arrayErrors", VArr (v :: vs))] eq_refl elems 0 [] Hall')).
Qed.

(** ** The entries of the error tree *)

Lemma falsy_get_prop r k : truthy r = false -> truthy (get_prop r k) = false.
Proof.
  destruct r; simpl; try discriminate; intros H; unfold get_prop; simpl;
    try (now destruct (k =? "length")).
  destruct s; [|discriminate]. simpl. now destruct (k =? "length").
Qed.

Lemma field_errors_truthy rec fuel object root R key t e :
  field_errors call rec fuel object root R key = (t, Ok (Some e)) ->
  truthy e = true.
Proof.
  unfold field_errors. intros H.
  apply bind_ok_inv in H as (t1 & rule & t2 & _ & H & _).
  apply bind_ok_inv in H as (t3 & value & t4 & _ & H & _).
  destruct (negb (truthy rule)); [discriminate|].
  destruct (negb (string_mem (typeof rule) ["array"; "object"; "function"]));
    [discriminate|].
  destruct (isArray rule).
  { apply bind_ok_inv in H as (t5 & r & t6 & _ & H & _).
    destruct (PR.isValid r); inversion H. reflexivity. }
  destruct (isArrayValidationRule rule).
  { apply bind_ok_inv in H as (t5 & r & t6 & _ & H & _).
    destruct (truthy (get_prop r "arrayErrors")
              || truthy (get_prop r "arrayElementErrors")) eqn:E;
      inversion H; subst.
    destruct (truthy e) eqn:He; [reflexivity|].
    rewrite !(falsy_get_prop e _ He) in E. discriminate. }
  destruct (typeof value =? "object"); [|discriminate].
  apply bind_ok_inv in H as (t5 & r & t6 & Hr & H & _).
  unfold validateObjectField in Hr.
  apply bind_ok_inv in Hr as (t7 & v & t8 & _ & Hr & _).
  apply bind_ok_inv in Hr as (t9 & error & t10 & _ & Hr & _).
  inversion Hr; subst r. simpl in H.
  destruct (truthy error) eqn:He; simpl in H; inversion H; subst. exact He.
Qed.

(** X8: every entry of a returned error tree is a truthy value: a key of
    the tree never holds undefined, null, an empty string, zero or false,
    so testing [errors[key]] tells whether the field failed. *)
Theorem tree_entries_are_truthy fuel O root R t tree :
  validateObject call (S fuel) O root R = (t, Ok tree) ->
  forall k, In k (own_keys tree) -> truthy (get_prop tree k) = true.
Proof.
  intros H k Hk.
  destruct (validateObject_ok_inv call fuel O root R t tree H) as [HR Hall].
  rewrite (validateObject_ok call fuel O root R HR Hall) in H.
  inversion H as [[Ht Htree]]. clear H Ht.
  assert (Hund : tree_shape VUndefined) by (now left).
  rewrite <- Htree in Hk.
  apply (keys_assemble _ (own_keys R) VUndefined k Hund) in Hk.
  destruct Hk as [[] | [Hin Hv]].
  rewrite (get_prop_assemble _ (own_keys R) VUndefined k Hund).
  rewrite (proj2 (string_mem_In k _) Hin).
  unfold verdict_of in *.
  destruct (field_errors call (validateObject call fuel) fuel
              (effective_object O) root R k) as [t' o] eqn:Hfe.
  simpl in *. destruct o as [[e|]| | |]; try congruence.
  now apply (field_errors_truthy _ _ _ _ _ _ _ _ Hfe).
Qed.

(** ** Static rule-sets never fail *)

Lemma is_ok_bind {A B : Type} (m : M A) (k : A -> M B) :
  is_ok m = true ->
  (forall a, result m = Ok a -> is_ok (k a) = true) ->
  is_ok (bind m k) = true.
Proof.
  unfold is_ok. destruct m as [t o]; destruct o as [a| | |]; unfold bind; simpl;
    intros Hm Hk; try discriminate.
  now apply Hk.
Qed.

Lemma foldM_is_ok {A S : Type} (body : S -> A -> M S) xs :
  (forall s x, In x xs -> is_ok (body s x) = true) ->
  forall s, is_ok (foldM body xs s) = true.
Proof.
  induction xs as [|x xs IH]; intros Hbody s; simpl.
  - reflexivity.
  - apply is_ok_bind.
    + apply Hbody. now left.
    + intros s' _. apply IH. intros; apply Hbody; now right.
Qed.

Lemma array_rules_part_static_ok key object root arrayRules :
  nullish object = false ->
  (truthy arrayRules = false
   \/ exists slots, arrayRules = VArr slots /\ forallb slot_ok slots = true) ->
  is_ok (array_rules_part call key object root arrayRules (VObj [])) = true.
Proof.
  intros Hobj [Hfalsy | (slots & -> & Hok)].
  - unfold array_rules_part. now rewrite Hfalsy.
  - unfold is_ok. now rewrite (array_rules_part_ok call key object root slots Hobj Hok).
Qed.

Lemma array_elements_part_static_ok rec root er value afe :
  (truthy er = false \/ static_rule_set er) ->
  (forall elems e, static_rule_set er -> value = VArr elems -> In e elems ->
                   is_ok (rec e root er) = true) ->
  is_ok (array_elements_part call rec root er value afe) = true.
Proof.
  intros Her Hrec. unfold array_elements_part.
  destruct (truthy er && isArray value) eqn:Hcond; [|reflexivity].
  destruct value; try reflexivity.
  destruct Her as [Hfalsy | Hstatic]; [now rewrite Hfalsy in Hcond|].
  apply foldM_is_ok. intros s ie Hin. unfold element_step.
  apply indexed_from_snd_In in Hin.
  apply is_ok_bind.
  - pose proof (Hrec elems (snd ie) Hstatic eq_refl Hin) as He.
    inversion Hstatic; subst. exact He.
  - intros error _. now destruct (truthy error).
Qed.

Lemma static_rule_set_truthy R : static_rule_set R -> truthy R = true.
Proof. intros H; inversion H; reflexivity. Qed.

Lemma validateObject_static_ok fuel O root R :
  static_rule_set R ->
  depth O + 2 <= fuel ->
  is_ok (validateObject call fuel O root R) = true.
Proof.
  revert O R. induction fuel as [|fuel IH]; intros O R Hstatic Hfuel; [lia|].
  pose proof (static_rule_set_truthy R Hstatic) as HR.
  rewrite (validateObject_unfold call fuel O root R HR).
  inversion Hstatic as [props Hprops HeqR]. subst R.
  apply foldM_is_ok. intros errors key Hin.
  destruct (In_keys_assoc key props Hin) as [rule Hassoc].
  pose proof (Hprops key rule (assoc_In key props rule Hassoc)) as Hrule.
  assert (Hobj := effective_object_not_nullish O).
  unfold field_step.
  rewrite (prop_get_def (VObj props) key eq_refl), bind_ret_l.
  rewrite (prop_get_def _ key Hobj), bind_ret_l.
  rewrite get_prop_obj, Hassoc.
  inversion Hrule as [r Hfalsy | slots Hok | props' Harr Hrules Helems
                      | props' Harr Hnested]; subst.
  - now rewrite Hfalsy.
  - simpl truthy. simpl negb. cbv iota. simpl typeof. simpl existsb. cbv iota.
    simpl isArray. cbv iota.
    rewrite (validatePrimitiveField_ok call key _ root slots Hobj Hok), bind_ok.
    cbn [PR.isValid PR.errors].
    now destruct (rule_violations call slots (get_prop (effective_object O) key) root).
  - simpl truthy. simpl negb. cbv iota. simpl typeof. simpl existsb. cbv iota.
    simpl isArray. cbv iota. rewrite Harr.
    apply is_ok_bind.
    + rewrite (validateArrayField_static call (validateObject call fuel) fuel key
                 (effective_object O) root (VObj props') Hobj eq_refl eq_refl).
      apply is_ok_bind.
      * now apply array_rules_part_static_ok.
      * intros afe _. apply array_elements_part_static_ok; [exact Helems|].
        intros elems e Hset Hval He.
        apply IH; [exact Hset|].
        assert (Hd := get_prop_effective_depth O key).
        rewrite Hval in Hd. specialize (Hd eq_refl).
        assert (Hde := depth_elem elems e He). lia.
    + intros r _.
      now destruct (truthy (get_prop r "arrayErrors")
                    || truthy (get_prop r "arrayElementErrors")).
  - simpl truthy. simpl negb. cbv iota. simpl typeof. simpl existsb. cbv iota.
    simpl isArray. cbv iota. rewrite Harr.
    destruct (typeof (get_prop (effective_object O) key) =? "object") eqn:Hty;
      [|reflexivity].
    apply String.eqb_eq in Hty.
    apply is_ok_bind.
    + unfold validateObjectField.
      rewrite (prop_get_def _ key Hobj), bind_ret_l.
      apply is_ok_bind; [|reflexivity].
      apply IH; [exact Hnested|].
      assert (Hd := get_prop_effective_depth O key Hty). lia.
    + intros r _. now destruct (negb (OR.isValid r)).
Qed.

(** X15: validation against a static rule-set never fails: for every
    object, root and rule functions, [validateObject] returns an error
    tree or nothing; it throws nothing, and a recursion budget of the
    object's depth plus two suffices. *)
Theorem static_rule_set_never_throws fuel O root R :
  static_rule_set R ->
  depth O + 2 <= fuel ->
  exists t tree, validateObject call fuel O root R = (t, Ok tree).
Proof.
  intros Hstatic Hfuel.
  pose proof (validateObject_static_ok fuel O root R Hstatic Hfuel) as H.
  destruct (is_ok_result _ H) as [tree Htree]. eauto.
Qed.

(** ** No violation, no error *)

Lemma result_bind_ok {A B : Type} (m : M A) (k : A -> M B) a :
  result m = Ok a -> result (bind m k) = result (k a).
Proof.
  destruct m as [t o]. simpl. intros ->. reflexivity.
Qed.

Lemma foldM_unchanged {A S : Type} (body : S -> A -> M S) xs s :
  (forall x, In x xs -> result (body s x) = Ok s) ->
  result (foldM body xs s) = Ok s.
Proof.
  induction xs as [|x xs IH]; intros Hbody; simpl.
  - reflexivity.
  - rewrite (result_bind_ok _ _ s) by (apply Hbody; now left).
    apply IH. intros; apply Hbody; now right.
Qed.

Section Quiet.

(** No rule function reports a violation. *)
Hypothesis quiet : forall f v root, truthy (call f v root) = false.

Lemma rule_violations_quiet slots v root : rule_violations call slots v root = [].
Proof.
  unfold rule_violations. induction (rule_functions slots) as [|f fs IH]; simpl.
  - reflexivity.
  - now rewrite quiet.
Qed.

Lemma array_rules_part_quiet key object root arrayRules :
  nullish object = false ->
  (truthy arrayRules = false
   \/ exists slots, arrayRules = VArr slots /\ forallb slot_ok slots = true) ->
  result (array_rules_part call key object root arrayRules (VObj [])) = Ok (VObj []).
Proof.
  intros Hobj [Hfalsy | (slots & -> & Hok)].
  - unfold array_rules_part. now rewrite Hfalsy.
  - rewrite (array_rules_part_ok call key object root slots Hobj Hok).
    rewrite rule_violations_quiet. now destruct slots.
Qed.

Lemma array_elements_part_quiet rec root er value afe :
  (truthy er = false \/ static_rule_set er) ->
  (forall elems e, static_rule_set er -> value = VArr elems -> In e elems ->
                   result (rec e root er) = Ok VUndefined) ->
  result (array_elements_part call rec root er value afe) = Ok afe.
Proof.
  intros Her Hrec. unfold array_elements_part.
  destruct (truthy er && isArray value) eqn:Hcond; [|reflexivity].
  destruct value; try reflexivity.
  destruct Her as [Hfalsy | Hstatic]; [now rewrite Hfalsy in Hcond|].
  apply foldM_unchanged. intros ie Hin. unfold element_step.
  apply indexed_from_snd_In in Hin.
  pose proof (Hrec elems (snd ie) Hstatic eq_refl Hin) as He.
  rewrite (result_bind_ok _ _ VUndefined); [reflexivity|].
  inversion Hstatic; subst. exact He.
Qed.

Lemma validateObject_quiet fuel O root R :
  static_rule_set R ->
  depth O + 2 <= fuel ->
  result (validateObject call fuel O root R) = Ok VUndefined.
Proof.
  revert O R. induction fuel as [|fuel IH]; intros O R Hstatic Hfuel; [lia|].
  pose proof (static_rule_set_truthy R Hstatic) as HR.
  rewrite (validateObject_unfold call fuel O root R HR).
  inversion Hstatic as [props Hprops HeqR]. subst R.
  apply foldM_unchanged. intros key Hin.
  destruct (In_keys_assoc key props Hin) as [rule Hassoc].
  pose proof (Hprops key rule (assoc_In key props rule Hassoc)) as Hrule.
  assert (Hobj := effective_object_not_nullish O).
  unfold field_step.
  rewrite (prop_get_def (VObj props) key eq_refl), bind_ret_l.
  rewrite (prop_get_def _ key Hobj), bind_ret_l.
  rewrite get_prop_obj, Hassoc.
  inversion Hrule as [r Hfalsy | slots Hok | props' Harr Hrules Helems
                      | props' Harr Hnested]; subst.
  - now rewrite Hfalsy.
  - simpl truthy. simpl negb. cbv iota. simpl typeof. simpl existsb. cbv iota.
    simpl isArray. cbv iota.
    rewrite (validatePrimitiveField_ok call key _ root slots Hobj Hok), bind_ok.
    cbn [PR.isValid PR.errors]. now rewrite rule_violations_quiet.
  - simpl truthy. simpl negb. cbv iota. simpl typeof. simpl existsb. cbv iota.
    simpl isArray. cbv iota. rewrite Harr.
    rewrite (result_bind_ok _ _ (VObj [])); [reflexivity|].
    rewrite (validateArrayField_static call (validateObject call fuel) fuel key
               (effective_object O) root (VObj props') Hobj eq_refl eq_refl).
    rewrite (result_bind_ok _ _ (VObj []))
      by (now apply array_rules_part_quiet).
    apply array_elements_part_quiet; [exact Helems|].
    intros elems e Hset Hval He.
    apply IH; [exact Hset|].
    assert (Hd := get_prop_effective_depth O key).
    rewrite Hval in Hd. specialize (Hd eq_refl).
    assert (Hde := depth_elem elems e He). lia.
  - simpl truthy. simpl negb. cbv iota. simpl typeof. simpl existsb. cbv iota.
    simpl isArray. cbv iota. rewrite Harr.
    destruct (typeof (get_prop (effective_object O) key) =? "object") eqn:Hty;
      [|reflexivity].
    apply String.eqb_eq in Hty.
    rewrite (result_bind_ok _ _ {| OR.isValid := true; OR.errors := VUndefined |});
      [reflexivity|].
    unfold validateObjectField.
    rewrite (prop_get_def _ key Hobj), bind_ret_l.
    rewrite (result_bind_ok _ _ VUndefined); [reflexivity|].
    apply IH; [exact Hnested|].
    assert (Hd := get_prop_effective_depth O key Hty). lia.
Qed.

End Quiet.

(** X16: the engine adds no error of its own: against a static rule-set
    whose rule functions report no violation, [validateObject] returns
    nothing, for every object and root. *)
Theorem no_violation_no_error fuel O root R :
  (forall f v r, truthy (call f v r) = false) ->
  static_rule_set R ->
  depth O + 2 <= fuel ->
  result (validateObject call fuel O root R) = Ok VUndefined.
Proof. intros Hquiet. now apply validateObject_quiet. Qed.

End Further.


(** * Instances of the further properties *)

Lemma ex_call_no_builder_chain f v r : isFunction (ex_call f v r) = false.
Proof.
  destruct f as [|[|[|[|[|f]]]]]; simpl; try reflexivity.
  - now destruct (truthy v).
  - destruct v as [| | | | |[|? ?]| |]; reflexivity.
Defined.

Lemma undeclared_fields_are_not_read_witness :
  let O1 := VObj [("name", VStr ""); ("extra", VNum 1)] in
  let O2 := VObj [("other", VNull); ("name", VStr "")] in
  let R := VObj [("name", VArr [VFun 0])] in
  (forall k, In k (own_keys R) ->
             get_prop (effective_object O1) k = get_prop (effective_object O2) k)
  /\ validateObject ex_call 2 O1 VNull R = validateObject ex_call 2 O2 VNull R.
Proof.
  intros O1 O2 R.
  assert (H : forall k, In k (own_keys R) ->
                get_prop (effective_object O1) k = get_prop (effective_object O2) k)
    by (intros k [<- | []]; reflexivity).
  split; [exact H|].
  exact (undeclared_fields_are_not_read ex_call 2 O1 O2 VNull R H).
Defined.

Lemma field_entries_are_local_witness :
  let O1 := VObj [("name", VStr ""); ("age", VNum 3)] in
  let O2 := VObj [("name", VStr "")] in
  let R1 := VObj [("name", VArr [VFun 0]); ("age", VArr [VFun 0])] in
  let R2 := VObj [("city", VArr [VFun 0]); ("name", VArr [VFun 0])] in
  let tree1 := VObj [("name", VArr [required_message])] in
  let tree2 := VObj [("city", VArr [required_message]);
                     ("name", VArr [required_message])] in
  validateObject ex_call 1 O1 VNull R1
    = ([Call 0 (VStr "") VNull; Call 0 (VNum 3) VNull], Ok tree1)
  /\ validateObject ex_call 1 O2 VNull R2
    = ([Call 0 VUndefined VNull; Call 0 (VStr "") VNull], Ok tree2)
  /\ In "name" (own_keys R1)
  /\ In "name" (own_keys R2)
  /\ get_prop tree1 "name" = get_prop tree2 "name".
Proof.
  intros O1 O2 R1 R2 tree1 tree2.
  assert (Hin1 : In "name" (own_keys R1)) by (now left).
  assert (Hin2 : In "name" (own_keys R2)) by (right; now left).
  repeat (split; [first [reflexivity | assumption]|]).
  exact (field_entries_are_local ex_call 0 O1 O2 VNull R1 R2 _ _ tree1 tree2 "name"
           eq_refl eq_refl Hin1 Hin2 eq_refl eq_refl).
Defined.

Lemma ex_call_modelled f v r : modelled_rule (ex_call f v r) = true.
Proof.
  destruct f as [|[|[|[|[|f]]]]]; simpl; try reflexivity.
  - now destruct (truthy v).
  - destruct v as [| | | | |[|? ?]| |]; reflexivity.
Qed.


Lemma self_resolving_builder_never_returns_witness :
  let R := VObj [("items", VFun 7)] in
  truthy R = true
  /\ own_keys R = ["items"]
  /\ get_prop R "items" = VFun 7
  /\ self_call 7 (get_prop (effective_object VUndefined) "items") VNull = VFun 7
  /\ forall fuel, result (validateObject self_call fuel VUndefined VNull R) = OutOfFuel.
Proof.
  intros R. do 4 (split; [reflexivity|]).
  exact (self_resolving_builder_never_returns self_call VUndefined VNull R
           "items" [] 7 eq_refl eq_refl eq_refl eq_refl).
Defined.

Lemma array_field_result_shape_witness :
  let object := VObj [("items", VArr [])] in
  let r := VObj [("arrayErrors", VArr [VStr "The array is empty."])] in
  validateArrayField ex_call (validateObject ex_call 1) 1 "items" object object (VFun 2)
    = ([Call 2 (VArr []) object; Call 3 (VArr []) object], Ok r)
  /\ array_errors_shape r.
Proof.
  intros object r. split; [reflexivity|].
  exact (array_field_result_shape ex_call (validateObject ex_call 1) 1 "items"
           object object (VFun 2) _ r eq_refl).
Defined.

Lemma array_parts_are_independent_witness :
  let elems := [VObj [("name", VStr "a")]; VObj []] in
  let object := VObj [("items", VArr elems)] in
  let er := VObj [("name", VArr [VFun 0])] in
  let rule := VObj [("arrayRules", VArr [VFun 1]); ("arrayElementRule", er)] in
  let rec := validateObject shop_call 1 in
  (nullish object = false /\ nullish rule = false /\ isFunction rule = false
   /\ get_prop rule "arrayRules" = VArr [VFun 1]
   /\ forallb slot_ok [VFun 1] = true
   /\ get_prop object "items" = VArr elems
   /\ truthy (get_prop rule "arrayElementRule") = true
   /\ forallb (fun e => is_ok (validate_element shop_call rec object
                                 (get_prop rule "arrayElementRule") e)) elems = true)
  /\ validateArrayField shop_call rec 0 "items" object object rule
     = ([Call 1 (VArr elems) object;
         Call 0 (VStr "a") object; Call 0 VUndefined object],
        Ok (VObj [("arrayErrors", VArr [VStr "Too many elements."]);
                  ("arrayElementErrors",
                   VArr [element_entry 1 (VObj [("name", VArr [required_message])])
                           (VObj [])])])).
Proof.
  intros elems object er rule rec. split; [repeat split; reflexivity|].
  exact (array_parts_are_independent shop_call rec 0 "items" object object rule
           [VFun 1] elems eq_refl eq_refl eq_refl eq_refl eq_refl eq_refl eq_refl
           eq_refl).
Defined.

Lemma element_builder_called_per_element_witness :
  let e0 := VObj [("name", VStr "a")] in
  let e1 := VObj [] in
  let object := VObj [("items", VArr [e0; e1])] in
  let rule := VObj [("arrayElementRule", VFun 2)] in
  let rec := validateObject shop_call 1 in
  (nullish object = false /\ nullish rule = false /\ isFunction rule = false
   /\ get_prop object "items" = VArr [e0; e1]
   /\ get_prop rule "arrayElementRule" = VFun 2
   /\ array_rules_part shop_call "items" object object (get_prop rule "arrayRules")
        (VObj []) = ([], Ok (VObj []))
   /\ forallb (fun e => is_ok (rec e object (shop_call 2 e object))) [e0; e1] = true)
  /\ calls (validateArrayField shop_call rec 0 "items" object object rule)
     = [Call 2 e0 object; Call 0 (VStr "a") object;
        Call 2 e1 object; Call 0 VUndefined object].
Proof.
  intros e0 e1 object rule rec. split; [repeat split; reflexivity|].
  exact (element_builder_called_per_element shop_call rec 0 "items" object object
           rule 2 [e0; e1] [] (VObj []) eq_refl eq_refl eq_refl eq_refl eq_refl
           eq_refl eq_refl).
Defined.

Lemma tree_entries_are_truthy_witness :
  let O := VObj [("name", VStr ""); ("items", VArr [])] in
  let R := VObj [("name", VArr [VFun 0]); ("items", VFun 2)] in
  let tree := VObj [("name", VArr [required_message]);
                    ("items", VObj [("arrayErrors", VArr [VStr "The array is empty."])])] in
  validateObject ex_call 2 O O R
    = ([Call 0 (VStr "") O; Call 2 (VArr []) O; Call 3 (VArr []) O], Ok tree)
  /\ forall k, In k (own_keys tree) -> truthy (get_prop tree k) = true.
Proof.
  intros O R tree. split; [reflexivity|].
  exact (tree_entries_are_truthy ex_call 1 O O R _ tree eq_refl).
Defined.

Lemma nested_rule_dispatch_witness :
  let props := [("fullName", VArr [VFun 0])] in
  let R := VObj [("customer", VObj props)] in
  let with_string := VObj [("customer", VStr "abc")] in
  let with_object := VObj [("customer", VObj [])] in
  let rec := validateObject ex_call 1 in
  (nullish R = false /\ get_prop R "customer" = VObj props
   /\ isArrayValidationRule (VObj props) = false
   /\ typeof (get_prop with_string "customer") <> "object"
   /\ typeof (get_prop with_object "customer") = "object")
  /\ field_step ex_call rec 1 with_string VNull R VUndefined "customer"
     = ([], Ok VUndefined)
  /\ field_step ex_call rec 1 with_object VNull R VUndefined "customer"
     = ([Call 0 VUndefined VNull],
        Ok (VObj [("customer", VObj [("fullName", VArr [required_message])])])).
Proof.
  intros props R with_string with_object rec.
  assert (Hs : typeof (get_prop with_string "customer") <> "object") by discriminate.
  split; [repeat split; first [reflexivity | exact Hs]|]. split.
  - exact (proj2 (nested_rule_dispatch ex_call rec 1 with_string VNull R VUndefined
                    "customer" props eq_refl eq_refl eq_refl eq_refl) Hs).
  - rewrite (proj1 (nested_rule_dispatch ex_call rec 1 with_object VNull R VUndefined
                      "customer" props eq_refl eq_refl eq_refl eq_refl) eq_refl).
    reflexivity.
Defined.

Lemma degenerate_rule_sets_witness :
  let O := VObj [("name", VStr "")] in
  (truthy (VNum 5) = true /\ own_keys (VNum 5) = [])
  /\ validateObject ex_call 1 O O (VNum 5) = ([], Ok VUndefined)
  /\ validateObject ex_call 1 O O (VStr "required")
     = ([], Throw (Error "string is not a valid rule.")).
Proof.
  intros O. split; [split; reflexivity|]. split.
  - exact (proj1 (degenerate_rule_sets ex_call 0 O O) (VNum 5) eq_refl eq_refl).
  - exact (proj2 (degenerate_rule_sets ex_call 0 O O) "r"%char "equired").
Defined.

Lemma assign_then_lookup_witness :
  let errors := VObj [("name", VArr [required_message])] in
  let v := VArr [VStr "Too small."] in
  tree_shape errors
  /\ get_prop (assignErrorsIfAny errors "age" v) "age" = v
  /\ (forall k, k <> "age" ->
        get_prop (assignErrorsIfAny errors "age" v) k = get_prop errors k)
  /\ tree_shape (assignErrorsIfAny errors "age" v).
Proof.
  intros errors v.
  assert (Hs : tree_shape errors) by (right; eexists; eexists; reflexivity).
  split; [exact Hs|].
  destruct (assign_then_lookup errors "age" v Hs) as (H1 & H2 & _ & H4).
  exact (conj H1 (conj H2 H4)).
Defined.

Lemma primitive_object_is_empty_object_witness :
  let R := VObj [("name", VArr [VFun 0])] in
  truthy (VStr "") = false
  /\ validateObject ex_call 1 (VStr "") VNull R = validateObject ex_call 1 (VObj []) VNull R
  /\ validateObject ex_call 1 (VNum 42) VNull R = validateObject ex_call 1 (VObj []) VNull R.
Proof.
  intros R. split; [reflexivity|].
  destruct (primitive_object_is_empty_object ex_call 1 VNull R) as (H1 & H2 & _).
  exact (conj (H1 (VStr "") eq_refl) (H2 42%Z)).
Defined.

Lemma static_rule_set_never_throws_witness :
  let R := VObj [("name", VArr [VFun 0]);
                 ("customer", VObj [("fullName", VArr [VFun 0])]);
                 ("items", VObj [("arrayRules", VArr [VFun 3]);
                                 ("arrayElementRule", VObj [("name", VArr [VFun 0])])])] in
  let O := VObj [("customer", VNull); ("items", VArr [VObj []])] in
  static_rule_set R
  /\ depth O + 2 <= 5
  /\ exists t tree, validateObject ex_call 5 O O R = (t, Ok tree).
Proof.
  intros R O.
  assert (Hname : static_rule_set (VObj [("name", VArr [VFun 0])])).
  { apply static_fields. intros k r [H | []]. inversion H; subst.
    now apply static_primitive. }
  assert (HR : static_rule_set R).
  { apply static_fields. intros k r [H | [H | [H | []]]]; inversion H; subst.
    - now apply static_primitive.
    - apply static_nested; [reflexivity|].
      apply static_fields. intros k' r' [H' | []]. inversion H'; subst.
      now apply static_primitive.
    - apply static_array; [reflexivity| |].
      + right. exists [VFun 3]. split; reflexivity.
      + right. exact Hname. }
  assert (Hfuel : depth O + 2 <= 5) by (vm_compute; lia).
  split; [exact HR|]. split; [exact Hfuel|].
  exact (static_rule_set_never_throws ex_call 5 O O R HR Hfuel).
Defined.

Lemma no_violation_no_error_witness :
  let R := VObj [("name", VArr [VFun 0]);
                 ("customer", VObj [("fullName", VArr [VFun 0])]);
                 ("items", VObj [("arrayRules", VArr [VFun 3]);
                                 ("arrayElementRule", VObj [("name", VArr [VFun 0])])])] in
  let O := VObj [("customer", VNull); ("items", VArr [VObj []])] in
  (forall f v r, truthy (quiet_call f v r) = false)
  /\ static_rule_set R
  /\ depth O + 2 <= 5
  /\ result (validateObject quiet_call 5 O O R) = Ok VUndefined.
Proof.
  intros R O.
  assert (Hquiet : forall f v r, truthy (quiet_call f v r) = false)
    by (intros; reflexivity).
  assert (Hname : static_rule_set (VObj [("name", VArr [VFun 0])])).
  { apply static_fields. intros k r [H | []]. inversion H; subst.
    now apply static_primitive. }
  assert (HR : static_rule_set R).
  { apply static_fields. intros k r [H | [H | [H | []]]]; inversion H; subst.
    - now apply static_primitive.
    - apply static_nested; [reflexivity|].
      apply static_fields. intros k' r' [H' | []]. inversion H'; subst.
      now apply static_primitive.
    - apply static_array; [reflexivity| |].
      + right. exists [VFun 3]. split; reflexivity.
      + right. exact Hname. }
  assert (Hfuel : depth O + 2 <= 5) by (vm_compute; lia).
  split; [exact Hquiet|]. split; [exact HR|]. split; [exact Hfuel|].
  exact (no_violation_no_error quiet_call 5 O O R Hquiet HR Hfuel).
Defined.
